(** * Fylm: metadata extraction from file names, and the safe transfer engine

    A shallow embedding of [fylmlib/patterns.py] and [fylmlib/parser.py],
    together with the part of Python's [re] and [os.path] modules they call.

    Python strings are modelled as lists of 8-bit characters, read as the
    code points 0 to 255 (Latin-1).  The character classes [\d], [\w], [\s]
    and the case folding are those of Python 3 [str] patterns on these code
    points: the accented letters are word characters and have a case. *)

From Stdlib Require Import List Ascii String Arith ZArith Lia Bool.
From stdpp Require Import gmap strings.
Import ListNotations.

Local Open Scope nat_scope.
Local Open Scope list_scope.

(** ** Characters *)

Abbreviation str := (list ascii).

(** String literals are written [L "text"]. *)
Definition L (s : string) : str := list_ascii_of_string s.

Definition code (c : ascii) : nat := nat_of_ascii c.

Definition between (lo hi : nat) (c : ascii) : bool :=
  (lo <=? code c) && (code c <=? hi).

Definition is_digit (c : ascii) : bool := between 48 57 c.

(** The capital letters that [str.lower] and IGNORECASE fold: A to Z, and
    the accented capitals 192 to 222 but for the multiplication sign 215. *)
Definition is_upper (c : ascii) : bool :=
  between 65 90 c || between 192 214 c || between 216 222 c.

(** The small letters whose capital is one 8-bit character: a to z, and the
    accented small letters 224 to 254 but for the division sign 247. *)
Definition is_lower (c : ascii) : bool :=
  between 97 122 c || between 224 246 c || between 248 254 c.

(** [\w]: what [str.isalnum] accepts, and the underscore.  Beside the ASCII
    letters and digits these are the ordinal indicators 170 and 186, the
    micro sign 181, the superscript digits 178, 179 and 185, the fractions
    188 to 190, and the accented letters 192 to 255 but for 215 and 247. *)
Definition is_word (c : ascii) : bool :=
  between 48 57 c || between 65 90 c || (code c =? 95) || between 97 122 c
  || (code c =? 170) || between 178 179 c || (code c =? 181)
  || between 185 186 c || between 188 190 c
  || between 192 214 c || between 216 246 c || between 248 255 c.

(** [\s] and [str.isspace]: the space, the control characters 9 to 13 and
    28 to 31, the next-line character 133 and the no-break space 160. *)
Definition is_space (c : ascii) : bool :=
  (code c =? 32) || between 9 13 c || between 28 31 c
  || (code c =? 133) || (code c =? 160).

(** [str.lower] on one character; IGNORECASE compares the characters so
    folded. *)
Definition lower (c : ascii) : ascii :=
  if is_upper c then ascii_of_nat (code c + 32) else c.

(** The capital of one character where it is one 8-bit character, as
    IGNORECASE uses it on a range.  The capitals of the micro sign 181 and
    of 255 lie beyond the 8-bit characters, and [str.upper] writes the sharp
    s 223 as SS: these three are left as they are, and [get_part], the only
    caller of [str.upper], has digits and Roman numerals to fold, as is
    proved below. *)
Definition upper (c : ascii) : ascii :=
  if is_lower c then ascii_of_nat (code c - 32) else c.

Definition str_lower (s : str) : str := map lower s.
Definition str_upper (s : str) : str := map upper s.

Definition ascii_eqb (a b : ascii) : bool := Ascii.eqb a b.

Fixpoint str_eqb (a b : str) : bool :=
  match a, b with
  | [], [] => true
  | x :: a', y :: b' => ascii_eqb x y && str_eqb a' b'
  | _, _ => false
  end.

(** ** Regular expressions: the fragment of Python's [re] syntax in use *)

Module Re.

(** One member of a bracketed character set. *)
Inductive citem : Type :=
| IChr (c : ascii)              (* a literal character *)
| IRng (lo hi : ascii)          (* lo-hi *)
| IDigit                        (* \d *)
| IWord                         (* \w *)
| INotWord                      (* \W *)
| ISpace.                       (* \s *)

(** What one pattern position accepts. *)
Inductive cset : Type :=
| Any                           (* . : everything but a newline *)
| OneOf (items : list citem)    (* [...] or a single literal *)
| NoneOf (items : list citem).  (* [^...] *)

Inductive regex : Type :=
| Eps
| Chr (cs : cset)
| Seq (r1 r2 : regex)
| Alt (r1 r2 : regex)                                  (* r1|r2 *)
| Rep (lo : nat) (hi : option nat) (greedy : bool) (r : regex)
| Bnd                                                  (* \b *)
| Bol                                                  (* ^ *)
| Eol                                                  (* $ *)
| Grp (g : string) (r : regex)                         (* (?P<g>r), or (r) numbered g *)
| Par (r : regex).                                     (* (?:r) *)

(** A literal string, character by character. *)
Fixpoint Lit (w : str) : regex :=
  match w with
  | [] => Eps
  | c :: w' => Seq (Chr (OneOf [IChr c])) (Lit w')
  end.

Definition Opt (r : regex) : regex := Rep 0 (Some 1) true r.      (* r? *)
Definition Plus (r : regex) : regex := Rep 1 None true r.         (* r+ *)
Definition Upto (n : nat) (r : regex) : regex := Rep 0 (Some n) true r. (* r{0,n} *)
Definition Times (n : nat) (r : regex) : regex := Rep n (Some n) true r. (* r{n} *)

(** [ic] is the IGNORECASE flag. *)
Definition in_item (ic : bool) (c : ascii) (it : citem) : bool :=
  match it with
  | IChr a => if ic then ascii_eqb (lower c) (lower a) else ascii_eqb c a
  | IRng lo hi =>
      between (code lo) (code hi) c
      || (ic && (between (code lo) (code hi) (lower c)
                 || between (code lo) (code hi) (upper c)))
  | IDigit => is_digit c
  | IWord => is_word c
  | INotWord => negb (is_word c)
  | ISpace => is_space c
  end.

Definition in_cset (ic : bool) (c : ascii) (cs : cset) : bool :=
  match cs with
  | Any => negb (code c =? 10)
  | OneOf items => existsb (in_item ic c) items
  | NoneOf items => negb (existsb (in_item ic c) items)
  end.

(** The state of one attempt: the position reached, and the spans of the
    groups closed so far, latest first. *)
Record mstate : Type := MState {
  pos : nat;
  caps : list (string * (nat * nat))
}.

Definition init (i : nat) : mstate := MState i [].

Definition advance (st : mstate) : mstate := MState (S (pos st)) (caps st).

Definition close_group (g : string) (start : nat) (st : mstate) : mstate :=
  MState (pos st) ((g, (start, pos st)) :: caps st).

Definition word_at (s : str) (i : nat) : bool :=
  match nth_error s i with
  | Some c => is_word c
  | None => false
  end.

(** [\b] holds at [i] when exactly one of the characters before and at [i]
    is a word character; outside the string there is none. *)
Definition boundary (s : str) (i : nat) : bool :=
  match i with
  | 0 => word_at s 0
  | S j => xorb (word_at s j) (word_at s i)
  end.

(** [$] holds at the end, and just before a final newline. *)
Definition at_end (s : str) (i : nat) : bool :=
  (i =? length s)
  || ((S i =? length s) && match nth_error s i with
                           | Some c => code c =? 10
                           | None => false
                           end).

Definition hi_open (hi : option nat) : bool :=
  match hi with
  | Some 0 => false
  | _ => true
  end.

Definition hi_pred (hi : option nat) : option nat :=
  match hi with
  | Some n => Some (Nat.pred n)
  | None => None
  end.

(** Repetition of [step], at least [lo] and at most [hi] times.  The matcher
    is a backtracking one: the result lists every way to go on, in the order
    in which they are tried, so a greedy loop lists one more iteration before
    stopping and a lazy loop the other way round.  An iteration that consumes
    nothing ends the loop once [lo] is reached. *)
Fixpoint rep (step : mstate -> list mstate) (greedy : bool)
    (fuel lo : nat) (hi : option nat) (st : mstate) {struct fuel} : list mstate :=
  let stop := if lo =? 0 then [st] else [] in
  match fuel with
  | 0 => stop
  | S fuel' =>
      let more :=
        if hi_open hi then
          flat_map
            (fun st' =>
               if (pos st <? pos st') || (1 <? lo)
               then rep step greedy fuel' (Nat.pred lo) (hi_pred hi) st'
               else [st'])
            (step st)
        else [] in
      if greedy then more ++ stop else stop ++ more
  end.

(** All the ways [r] matches in [s] from the state [st], in the order a
    backtracking matcher tries them. *)
Fixpoint mt (ic : bool) (s : str) (r : regex) (st : mstate) : list mstate :=
  match r with
  | Eps => [st]
  | Chr cs =>
      match nth_error s (pos st) with
      | Some c => if in_cset ic c cs then [advance st] else []
      | None => []
      end
  | Seq r1 r2 => flat_map (mt ic s r2) (mt ic s r1 st)
  | Alt r1 r2 => mt ic s r1 st ++ mt ic s r2 st
  | Rep lo hi greedy r' =>
      rep (mt ic s r') greedy (lo + S (length s)) lo hi st
  | Bnd => if boundary s (pos st) then [st] else []
  | Bol => if pos st =? 0 then [st] else []
  | Eol => if at_end s (pos st) then [st] else []
  | Grp g r' => map (close_group g (pos st)) (mt ic s r' st)
  | Par r' => mt ic s r' st
  end.

(** A compiled pattern: the expression and its IGNORECASE flag. *)
Record pattern : Type := Pattern {
  p_re : regex;
  p_ic : bool
}.

(** A match object: where it starts and the state it ends in. *)
Record match_obj : Type := Match {
  m_start : nat;
  m_state : mstate
}.

Definition m_end (m : match_obj) : nat := pos (m_state m).

(** The first way [p] matches from [i]; with [must_advance], the first one
    that is not empty. *)
Definition match_at (p : pattern) (s : str) (must_advance : bool) (i : nat)
  : option match_obj :=
  let all := mt (p_ic p) s (p_re p) (init i) in
  let ok := if must_advance
            then List.filter (fun st => negb (pos st =? i)) all
            else all in
  match ok with
  | st :: _ => Some (Match i st)
  | [] => None
  end.

(** The left-most start among [starts] at which [p] matches. *)
Fixpoint first_match (p : pattern) (s : str) (starts : list nat)
  : option match_obj :=
  match starts with
  | [] => None
  | i :: rest =>
      match match_at p s false i with
      | Some m => Some m
      | None => first_match p s rest
      end
  end.

(** [pattern.search(s, from)]; after an empty match the scan may not return
    an empty match at the same place again. *)
Definition search_from (p : pattern) (s : str) (must_advance : bool) (from : nat)
  : option match_obj :=
  match match_at p s must_advance from with
  | Some m => Some m
  | None => first_match p s (seq (S from) (length s - from))
  end.

(** [re.search(p, s)] *)
Definition search (p : pattern) (s : str) : option match_obj :=
  search_from p s false 0.

(** [re.finditer(p, s)], as a list: the matches from left to right, each
    scan starting where the previous match ended. *)
Fixpoint finditer_from (p : pattern) (s : str) (fuel : nat)
    (must_advance : bool) (from : nat) : list match_obj :=
  match fuel with
  | 0 => []
  | S fuel' =>
      match search_from p s must_advance from with
      | None => []
      | Some m =>
          m :: finditer_from p s fuel' (m_end m =? m_start m) (m_end m)
      end
  end.

Definition finditer (p : pattern) (s : str) : list match_obj :=
  finditer_from p s (2 * S (length s)) false 0.

Definition substr (s : str) (a b : nat) : str := firstn (b - a) (skipn a s).

Fixpoint lookup_cap (g : string) (cs : list (string * (nat * nat)))
  : option (nat * nat) :=
  match cs with
  | [] => None
  | (g', span) :: rest => if String.eqb g g' then Some span else lookup_cap g rest
  end.

(** [m.group(g)]: [None] when the group took no part in the match. *)
Definition group (s : str) (m : match_obj) (g : string) : option str :=
  match lookup_cap g (caps (m_state m)) with
  | Some (a, b) => Some (substr s a b)
  | None => None
  end.

(** [m.group()]: the whole matched text. *)
Definition group0 (s : str) (m : match_obj) : str :=
  substr s (m_start m) (m_end m).

(** A replacement template: literal text, references to groups, and the
    reference to the whole match. *)
Inductive titem : Type :=
| TLit (w : str)
| TRef (g : string)
| TAll.

Definition template := list titem.

Definition expand (t : template) (s : str) (m : match_obj) : str :=
  flat_map
    (fun it =>
       match it with
       | TLit w => w
       | TRef g => match group s m g with Some w => w | None => [] end
       | TAll => group0 s m
       end) t.

Fixpoint sub_from (ms : list match_obj) (t : template) (s : str) (from : nat) : str :=
  match ms with
  | [] => skipn from s
  | m :: ms' =>
      substr s from (m_start m) ++ expand t s m ++ sub_from ms' t s (m_end m)
  end.

(** [re.sub(p, t, s)]: every match of [p] in [s] replaced by [t]. *)
Definition sub (p : pattern) (t : template) (s : str) : str :=
  sub_from (finditer p s) t s 0.

(** *** The replacement text of [re.sub]

    [re.sub] reads a replacement given as a text as a template, in which a
    backslash starts an escape.  The reading below is the one for a pattern
    without groups, which is all that the parser needs: a reference to a
    group other than the whole match is then an error. *)

Definition is_octal (c : ascii) : bool := between 48 55 c.

Definition is_ascii_letter (c : ascii) : bool :=
  between 65 90 c || between 97 122 c.

Definition digit_of (c : ascii) : nat := code c - 48.

(** The escapes that stand for one character: [\a \b \f \n \r \t \v] and
    the doubled backslash. *)
Definition escape_char (c : ascii) : option ascii :=
  if ascii_eqb c "a" then Some (ascii_of_nat 7)
  else if ascii_eqb c "b" then Some (ascii_of_nat 8)
  else if ascii_eqb c "f" then Some (ascii_of_nat 12)
  else if ascii_eqb c "n" then Some (ascii_of_nat 10)
  else if ascii_eqb c "r" then Some (ascii_of_nat 13)
  else if ascii_eqb c "t" then Some (ascii_of_nat 9)
  else if ascii_eqb c "v" then Some (ascii_of_nat 11)
  else if ascii_eqb c "\" then Some "\"%char
  else None.

(** Zeros with single underscores between them, after a first zero. *)
Fixpoint more_zeros (w : str) : bool :=
  match w with
  | [] => true
  | c :: w' =>
      if ascii_eqb c "0" then more_zeros w'
      else if ascii_eqb c "_" then
        match w' with
        | d :: w'' => ascii_eqb d "0" && more_zeros w''
        | [] => false
        end
      else false
  end.

(** The white space that [int] allows around a number: that of [\s] but
    for the control characters 28 to 31. *)
Definition int_space (c : ascii) : bool :=
  (code c =? 32) || between 9 13 c || (code c =? 133) || (code c =? 160).

Fixpoint drop_white (w : str) : str :=
  match w with
  | [] => []
  | c :: w' => if int_space c then drop_white w' else w
  end.

Definition strip_space (w : str) : str :=
  rev (drop_white (rev (drop_white w))).

(** [int(name) == 0] for the name in [\g<name>]: white space around it and
    a sign before it are allowed, as are underscores between the digits. *)
Definition int_zero (name : str) : bool :=
  let w := strip_space name in
  let w := match w with
           | c :: w' => if ascii_eqb c "+" || ascii_eqb c "-" then w' else w
           | [] => []
           end in
  match w with
  | c :: w' => ascii_eqb c "0" && more_zeros w'
  | [] => false
  end.

(** Where the reader of a template stands: in plain text, after a
    backslash, in an octal escape that starts with 0, after one or two
    digits of another escape, after [\g], or in the name of [\g<name>]. *)
Inductive tstate : Type :=
| TPlain
| TEsc
| TZero1
| TZero2 (v : nat)
| TDig1 (d : nat)
| TDig2 (d1 d2 : nat)
| TG
| TName (name : str).

Definition plain_step (c : ascii) : template * tstate :=
  if ascii_eqb c "\" then ([], TEsc) else ([TLit [c]], TPlain).

Definition emit_then (x : nat) (c : ascii) : template * tstate :=
  let '(out, st) := plain_step c in (TLit [ascii_of_nat x] :: out, st).

(** One character of the template: what it adds to the template and the
    next state, or [None] where Python raises an error. *)
Definition template_step (st : tstate) (c : ascii)
  : option (template * tstate) :=
  match st with
  | TPlain => Some (plain_step c)
  | TEsc =>
      if ascii_eqb c "g" then Some ([], TG)
      else if ascii_eqb c "0" then Some ([], TZero1)
      else if is_digit c then Some ([], TDig1 (digit_of c))
      else match escape_char c with
           | Some x => Some ([TLit [x]], TPlain)
           | None =>
               if is_ascii_letter c then None
               else Some ([TLit ["\"%char; c]], TPlain)
           end
  | TZero1 =>
      if is_octal c then Some ([], TZero2 (digit_of c))
      else Some (emit_then 0 c)
  | TZero2 v =>
      if is_octal c then Some ([TLit [ascii_of_nat (8 * v + digit_of c)]], TPlain)
      else Some (emit_then v c)
  | TDig1 d =>
      if is_digit c then Some ([], TDig2 d (digit_of c)) else None
  | TDig2 d1 d2 =>
      if (d1 <=? 7) && (d2 <=? 7) && is_octal c
      then let v := 64 * d1 + 8 * d2 + digit_of c in
           if v <=? 255 then Some ([TLit [ascii_of_nat v]], TPlain) else None
      else None
  | TG => if ascii_eqb c "<" then Some ([], TName []) else None
  | TName name =>
      if ascii_eqb c ">"
      then if int_zero name then Some ([TAll], TPlain) else None
      else Some ([], TName (name ++ [c]))
  end.

(** The end of the template: an octal escape may end it, any other
    unfinished escape is an error. *)
Definition template_end (st : tstate) : option template :=
  match st with
  | TPlain => Some []
  | TZero1 => Some [TLit [ascii_of_nat 0]]
  | TZero2 v => Some [TLit [ascii_of_nat v]]
  | _ => None
  end.

Fixpoint read_template (st : tstate) (w : str) : option template :=
  match w with
  | [] => template_end st
  | c :: w' =>
      match template_step st c with
      | Some (out, st') =>
          match read_template st' w' with
          | Some t => Some (out ++ t)
          | None => None
          end
      | None => None
      end
  end.

Definition parse_template (w : str) : option template :=
  read_template TPlain w.

(** [re.sub(p, repl, s)] for a replacement text and a pattern without
    groups; the template is read before the search, so a bad one is an error
    whether [p] matches or not. *)
Definition sub_text (p : pattern) (repl s : str) : option str :=
  match parse_template repl with
  | Some t => Some (sub p t s)
  | None => None
  end.

End Re.

Import Re.

(** ** patterns.py *)

Module patterns.

Definition C (c : ascii) : regex := Chr (OneOf [IChr c]).
Definition R (lo hi : ascii) : regex := Chr (OneOf [IRng lo hi]).
Definition D : regex := Chr (OneOf [IDigit]).

(** [192[1-9]|19[3-9]\d|20[0-9]\d|21[0-5]\d] *)
Definition year_alt : regex :=
  Alt (Seq (Lit (L "192")) (R "1" "9"))
 (Alt (Seq (Lit (L "19")) (Seq (R "3" "9") D))
 (Alt (Seq (Lit (L "20")) (Seq (R "0" "9") D))
      (Seq (Lit (L "21")) (Seq (R "0" "5") D)))).

(** [\b(?P<year>192[1-9]|19[3-9]\d|20[0-9]\d|21[0-5]\d)\b] *)
Definition year_tail : regex :=
  Seq Bnd (Seq (Grp "year" year_alt) Bnd).

(** [[^\/]+\b(?P<year>192[1-9]|19[3-9]\d|20[0-9]\d|21[0-5]\d)\b] *)
Definition year : pattern :=
  Pattern (Seq (Plus (Chr (NoneOf [IChr "/"]))) year_tail) false.

(** [\b(?P<resolution>(?:(?:72|108|216)0p?)|4K)\b], re.I *)
Definition resolution : pattern :=
  Pattern
    (Seq Bnd
      (Seq (Grp "resolution"
              (Alt (Par (Seq (Par (Alt (Lit (L "72"))
                                  (Alt (Lit (L "108")) (Lit (L "216")))))
                             (Seq (C "0") (Opt (C "p")))))
                   (Lit (L "4K"))))
           Bnd))
    true.

Definition bluray_alt : regex :=
  Alt (Seq (Lit (L "blu")) (Seq (Opt (C "-")) (Lit (L "ray"))))
 (Alt (Lit (L "bdremux")) (Lit (L "bdrip"))).

Definition webdl_alt : regex :=
  Alt (Seq (Lit (L "web")) (Seq (Opt (C "-")) (Lit (L "dl"))))
 (Alt (Lit (L "webrip"))
 (Alt (Lit (L "amzn"))
 (Alt (Lit (L "nf"))
 (Alt (Lit (L "hulu"))
 (Alt (Lit (L "dsnp")) (Lit (L "atvp"))))))).

(** [\b(?:(?P<bluray>blu-?ray|bdremux|bdrip)|(?P<webdl>web-?dl|webrip|amzn|nf|hulu|dsnp|atvp)|(?P<hdtv>hdtv)|(?P<dvd>dvd)|(?P<sdtv>sdtv))\b], re.I *)
Definition media : pattern :=
  Pattern
    (Seq Bnd
      (Seq (Par (Alt (Grp "bluray" bluray_alt)
                (Alt (Grp "webdl" webdl_alt)
                (Alt (Grp "hdtv" (Lit (L "hdtv")))
                (Alt (Grp "dvd" (Lit (L "dvd")))
                     (Grp "sdtv" (Lit (L "sdtv"))))))))
           Bnd))
    true.

(** [\d{4}.*?\b(?P<proper>proper)\b], re.I *)
Definition proper : pattern :=
  Pattern
    (Seq (Times 4 D)
      (Seq (Rep 0 None false (Chr Any))
        (Seq Bnd (Seq (Grp "proper" (Lit (L "proper"))) Bnd))))
    true.

(** [\b(?P<hdr>hdr)\b], re.I *)
Definition hdr : pattern :=
  Pattern (Seq Bnd (Seq (Grp "hdr" (Lit (L "hdr"))) Bnd)) true.

(** [M{0,4}(CM|CD|D?C{0,3})(XC|XL|L?X{0,3})(IX|IV|V?I{0,3})] *)
Definition roman : regex :=
  Seq (Upto 4 (C "M"))
 (Seq (Grp "3" (Alt (Lit (L "CM")) (Alt (Lit (L "CD"))
                 (Seq (Opt (C "D")) (Upto 3 (C "C"))))))
 (Seq (Grp "4" (Alt (Lit (L "XC")) (Alt (Lit (L "XL"))
                 (Seq (Opt (C "L")) (Upto 3 (C "X"))))))
      (Grp "5" (Alt (Lit (L "IX")) (Alt (Lit (L "IV"))
                 (Seq (Opt (C "V")) (Upto 3 (C "I")))))))).

(** [(?P<part>(?:(\d+|M{0,4}(CM|CD|D?C{0,3})(XC|XL|L?X{0,3})(IX|IV|V?I{0,3}))))] *)
Definition part_group : regex :=
  Grp "part" (Par (Grp "2" (Alt (Plus D) roman))).

(** [\bpart\W?(?P<part>(?:(\d+|M{0,4}(CM|CD|D?C{0,3})(XC|XL|L?X{0,3})(IX|IV|V?I{0,3}))))], re.I *)
Definition part : pattern :=
  Pattern
    (Seq Bnd (Seq (Lit (L "part")) (Seq (Opt (Chr (OneOf [INotWord]))) part_group)))
    true.

(** [([\._\xb7\[\]{}\(\)]|[\s\W]+$)], where \xb7 is the middle dot, character 183. *)
Definition strip_from_title : pattern :=
  Pattern
    (Grp "1"
      (Alt (Chr (OneOf [IChr "."; IChr "_"; IChr (ascii_of_nat 183);
                        IChr "["; IChr "]"; IChr "{"; IChr "}";
                        IChr "("; IChr ")"]))
           (Seq (Plus (Chr (OneOf [ISpace; INotWord]))) Eol)))
    false.

End patterns.

(** ** The string and path functions the parser calls *)

Definition sep : ascii := "/".

Definition is_sep (c : ascii) : bool := ascii_eqb c sep.

Fixpoint take_while (f : ascii -> bool) (s : str) : str :=
  match s with
  | [] => []
  | c :: s' => if f c then c :: take_while f s' else []
  end.

Fixpoint drop_while (f : ascii -> bool) (s : str) : str :=
  match s with
  | [] => []
  | c :: s' => if f c then drop_while f s' else s
  end.

(** [os.path.basename(p)]: what follows the last separator. *)
Definition basename (p : str) : str :=
  rev (take_while (fun c => negb (is_sep c)) (rev p)).

(** [os.path.dirname(p)]: what precedes the last separator, without its
    trailing separators unless it consists of separators only. *)
Definition dirname (p : str) : str :=
  let head := rev (drop_while (fun c => negb (is_sep c)) (rev p)) in
  if forallb is_sep head then head
  else rev (drop_while is_sep (rev head)).

(** [os.path.splitext(p)[0]] for a name without separator: the name up to its
    last dot, when a character other than a dot precedes that dot. *)
Definition splitext_root (p : str) : str :=
  let ext := take_while (fun c => negb (ascii_eqb c ".")) (rev p) in
  let root := skipn (S (length ext)) (rev p) in
  if (length ext <? length p) && existsb (fun c => negb (ascii_eqb c ".")) root
  then rev root
  else p.

(** [a.startswith(b)] *)
Fixpoint startswith (a b : str) {struct b} : bool :=
  match b, a with
  | [], _ => true
  | y :: b', x :: a' => ascii_eqb x y && startswith a' b'
  | _ :: _, [] => false
  end.

(** The first index at which [w] occurs in [s]. *)
Fixpoint find (w s : str) : option nat :=
  if startswith s w then Some 0
  else match s with
       | [] => None
       | _ :: s' => option_map S (find w s')
       end.

(** [s.split(w)[0]], for a separator [w] that is not empty: what precedes the
    first occurrence of [w], or all of [s]. *)
Definition split_head (w s : str) : str :=
  match find w s with
  | Some i => firstn i s
  | None => s
  end.

(** [s.strip()] *)
Definition strip (s : str) : str :=
  rev (drop_while is_space (rev (drop_while is_space s))).

Fixpoint digits_value (acc : Z) (s : str) : Z :=
  match s with
  | [] => acc
  | c :: s' => digits_value (10 * acc + Z.of_nat (code c - 48))%Z s'
  end.

(** [int(s)] on a string of decimal digits; anything else stands for the
    [ValueError] that the parser never meets. *)
Definition py_int (s : str) : option Z :=
  match s with
  | [] => None
  | _ => if forallb is_digit s then Some (digits_value 0 s) else None
  end.

Fixpoint nat_digits (fuel n : nat) (acc : str) : str :=
  match fuel with
  | 0 => acc
  | S fuel' =>
      let acc' := ascii_of_nat (48 + n mod 10) :: acc in
      if n <? 10 then acc' else nat_digits fuel' (n / 10) acc'
  end.

Definition str_of_Z (z : Z) : str :=
  let n := Z.to_nat (Z.abs z) in
  (if (z <? 0)%Z then ["-"%char] else []) ++ nat_digits (S n) n [].

(** [str(x)] for [x] an integer or [None]. *)
Definition py_str (x : option Z) : str :=
  match x with
  | Some z => str_of_Z z
  | None => L "None"
  end.

(** ** enums.Media *)

(** Modelled from the spec: the enumeration [fylmlib.enums.Media] is not
    among the sources; its members are those that parser.py returns and the
    spec lists. *)
Inductive Media : Type := BLURAY | WEBDL | HDTV | DVD | SDTV | UNKNOWN.

(** ** The configuration the parser reads

    The module [fylmlib.config] is loaded from a file at run time; the three
    tables the parser reads are taken as they are given.  The keys of
    [edition_map] are regular expressions and its values replacement
    templates. *)

Record config : Type := Config {
  strip_prefixes : list str;
  keep_period : list str;
  edition_map : list (regex * template)
}.

(** The text [r'\b' + key + r'\b'] as a pattern: an alternation at the top of
    [key] takes the first [\b] into its first branch and the last [\b] into
    its last branch. *)
Fixpoint bnd_right (key : regex) : regex :=
  match key with
  | Alt a b => Alt a (bnd_right b)
  | _ => Seq key Bnd
  end.

Fixpoint bnd_left (key : regex) : regex :=
  match key with
  | Alt a b => Alt (bnd_left a) b
  | _ => Seq Bnd key
  end.

Definition delimit (key : regex) : regex := bnd_left (bnd_right key).

(** ** parser.py *)

Module parser.

Section Parser.

Variable cfg : config.

(** [formatter.strip_extra_whitespace], of a module that the parser only
    calls: it collapses the runs of white space of a title. *)
Variable strip_extra_whitespace : str -> str.

Definition folder_of (source_path : str) : str := basename (dirname source_path).
Definition file_of (source_path : str) : str := basename source_path.

(** [f'{folder}/{file}'] *)
Definition folder_file (source_path : str) : str :=
  folder_of source_path ++ sep :: file_of source_path.

(** [matches[-1]] when [matches] is not empty. *)
Definition last_match (ms : list match_obj) : option match_obj :=
  match rev ms with
  | m :: _ => Some m
  | [] => None
  end.

Definition get_year (source_path : str) : option Z :=
  let s := folder_file source_path in
  match last_match (finditer patterns.year s) with
  | Some m =>
      match group s m "year" with
      | Some y => py_int y
      | None => None
      end
  | None => None
  end.

(** [_edition_map]: the compiled expression of the first entry that matches,
    and the corrected edition. *)
Fixpoint edition_search (entries : list (regex * template)) (s : str)
  : option (pattern * str) :=
  match entries with
  | [] => None
  | (key, value) :: rest =>
      let rx := Pattern (delimit key) true in
      match search rx s with
      | Some result => Some (rx, sub rx value (group0 s result))
      | None => edition_search rest s
      end
  end.

Definition _edition_map (source_path : str) : option (pattern * str) :=
  edition_search (edition_map cfg) (folder_file source_path).

(** [_edition_map(...)[1] or None]: an empty edition counts as none. *)
Definition get_edition (source_path : str) : option str :=
  match _edition_map (folder_file source_path) with
  | Some (_, []) => None
  | Some (_, edition) => Some edition
  | None => None
  end.

Definition get_resolution (source_path : str) : option str :=
  let s := folder_file source_path in
  match search patterns.resolution s with
  | Some m =>
      match group s m "resolution" with
      | Some r =>
          let r := str_lower r in
          let r := if str_eqb r (L "4k") then L "2160p" else r in
          Some (if existsb (ascii_eqb "p") r then r else r ++ L "p")
      | None => None
      end
  | None => None
  end.

(** [match and match.group(g)]: the group took part and is not empty. *)
Definition truthy (s : str) (m : option match_obj) (g : string) : bool :=
  match m with
  | Some m' => match group s m' g with
               | Some (_ :: _) => true
               | _ => false
               end
  | None => false
  end.

Definition get_media (source_path : str) : Media :=
  let s := folder_file source_path in
  let m := search patterns.media s in
  if truthy s m "bluray" then BLURAY
  else if truthy s m "webdl" then WEBDL
  else if truthy s m "hdtv" then HDTV
  else if truthy s m "dvd" then DVD
  else if truthy s m "sdtv" then SDTV
  else UNKNOWN.

Definition is_hdr (source_path : str) : bool :=
  let s := folder_file source_path in
  truthy s (search patterns.hdr s) "hdr".

Definition is_proper (source_path : str) : bool :=
  let s := folder_file source_path in
  truthy s (search patterns.proper s) "proper".

Definition get_part (source_path : str) : option str :=
  let s := folder_file source_path in
  match search patterns.part s with
  | Some m => match group s m "part" with
              | Some w => Some (str_upper w)
              | None => None
              end
  | None => None
  end.

(** The steps of [get_title], in the order of the source. *)

(** The folder name when a year or a resolution is found in it, otherwise
    the file name. *)
Definition title_source (source_path : str) : str :=
  let folder := folder_of source_path in
  let file := file_of source_path in
  match get_year folder, get_resolution folder with
  | None, None => file
  | _, _ => folder
  end.

(** [for prefix in config.strip_prefixes: if title.lower().startswith(prefix.lower()): title = title[len(prefix):]] *)
Definition strip_prefix (title prefix : str) : str :=
  if startswith (str_lower title) (str_lower prefix)
  then skipn (length prefix) title
  else title.

Definition strip_tag_prefixes (prefixes : list str) (title : str) : str :=
  fold_left strip_prefix prefixes title.

(** [, the], re.I *)
Definition comma_the : pattern := Pattern (Lit (L ", the")) true.

(** [if re.search(r', the', title, re.I): title = f"The {re.sub(r', the', '', title, flags=re.I)}"] *)
Definition restore_article (title : str) : str :=
  match search comma_the title with
  | Some _ => L "The " ++ sub comma_the [] title
  | None => title
  end.

Definition strip_unwanted (title : str) : str :=
  sub patterns.strip_from_title [TLit (L " ")] title.

Definition strip_edition (source_path title : str) : str :=
  match _edition_map source_path with
  | Some (rx, _) => sub rx [] title
  | None => title
  end.

Definition strip_tags (title : str) : str :=
  sub patterns.resolution [] (sub patterns.media [] title).

(** [title.split(str(cls.get_year(source_path)))[0]] *)
Definition split_on_year (source_path title : str) : str :=
  split_head (py_str (get_year source_path)) title.

(** [re.sub(re.compile(r'\b' + re.escape(keep_period_str) + r'\b', re.I), keep_period_str, title)];
    the configured text is the literal that is searched and, read as a
    template, the replacement: [None] where the template is a bad one and
    Python raises an error. *)
Definition restore_period (title keep_period_str : str) : option str :=
  sub_text (Pattern (Seq Bnd (Seq (Lit keep_period_str) Bnd)) true)
           keep_period_str title.

(** [for keep_period_str in config.keep_period: title = re.sub(...)] *)
Fixpoint restore_periods_from (strs : list str) (title : str) : option str :=
  match strs with
  | [] => Some title
  | keep_period_str :: rest =>
      match restore_period title keep_period_str with
      | Some title' => restore_periods_from rest title'
      | None => None
      end
  end.

Definition restore_periods (title : str) : option str :=
  restore_periods_from (keep_period cfg) title.

(** The title before it is cut at the year: lines 58 to 94. *)
Definition title_before_year (source_path : str) : str :=
  let title := title_source source_path in
  let title := splitext_root title in
  let title := strip_tag_prefixes (strip_prefixes cfg) title in
  let title := restore_article title in
  let title := strip_unwanted title in
  let title := strip_edition source_path title in
  strip_tags title.

(** What is done to the title after the cut: lines 102 to 111. *)
Definition title_after_year (title : str) : option str :=
  match restore_periods title with
  | Some title' => Some (strip_extra_whitespace (strip title'))
  | None => None
  end.

(** [get_title]: [None] where Python raises an error. *)
Definition get_title (source_path : str) : option str :=
  let title := title_source source_path in
  let title := splitext_root title in
  let title := strip_tag_prefixes (strip_prefixes cfg) title in
  let title := restore_article title in
  let title := strip_unwanted title in
  let title := strip_edition source_path title in
  let title := strip_tags title in
  let title := split_on_year source_path title in
  match restore_periods title with
  | Some title => Some (strip_extra_whitespace (strip title))
  | None => None
  end.

End Parser.

End parser.

(** ** The safe transfer engine *)

Module transfer.

(** Modelled from the spec: the transfer engine ([fylmlib.operations]) is
    not among the sources; the file system is a finite map from paths to the
    bytes of the files, the size of a file being the number of its bytes. *)
Abbreviation disk := (gmap string str).

(** Modelled from the spec: the transfer request of section 3. *)
Record request : Type := Request {
  source : string;
  destination : string;
  allowUpgrade : bool
}.

(** Modelled from the spec: the policy flags of section 6, and whether the
    source and the destination are on the same volume. *)
Record policy : Type := Policy {
  force_overwrite : bool;
  safe_copy : bool;
  dry_run : bool;
  same_volume : bool
}.

(** Modelled from the spec: a transfer fails with [SourceNotFound] or reports
    whether it succeeded. *)
Inductive outcome : Type :=
| SourceNotFound
| Outcome (success : bool).

(** Modelled from the spec: the staging file is [<destination>.partial~]. *)
Definition staging (dst : string) : string := (dst +:+ ".partial~")%string.

(** Modelled from the spec: the duplicate-resolution policy of section 4.4,
    step 1, for a source of [ssize] bytes and a destination of [dsize]. *)
Definition may_replace (pol : policy) (req : request) (ssize dsize : nat) : bool :=
  if force_overwrite pol then true
  else if allowUpgrade req && (ssize <? dsize) then true
  else dsize <? ssize.

(** Modelled from the spec: the steps of a staged copy (section 4.4, step 3).
    The bytes are streamed into the staging file; then the staging file is
    renamed to the destination and the source is deleted. *)
Inductive phase : Type :=
| Copying (written : nat)
| Renamed
| Committed
| Failed.

Record copy_state : Type := CopyState {
  ph : phase;
  files : disk
}.

(** Modelled from the spec: a failure may strike after any number of bytes. *)
Definition fails_at (fail_at : option nat) (n : nat) : bool :=
  match fail_at with
  | Some m => n =? m
  | None => false
  end.

(** Modelled from the spec: one step of a staged copy of [data] from [src] to
    [dst]; [fail_at] is the number of bytes after which the copy fails, if it
    does.  On a failure the staging file is deleted. *)
Definition copy_step (src dst : string) (data : str) (fail_at : option nat)
    (st : copy_state) : copy_state :=
  match ph st with
  | Copying n =>
      if fails_at fail_at n
      then CopyState Failed (delete (staging dst) (files st))
      else if n <? length data
      then CopyState (Copying (S n))
             (<[staging dst := firstn (S n) data]> (files st))
      else CopyState Renamed
             (<[dst := data]> (delete (staging dst) (files st)))
  | Renamed => CopyState Committed (delete src (files st))
  | Committed => st
  | Failed => st
  end.

(** Modelled from the spec: the states that a staged copy goes through, the
    first one last; it starts with an empty staging file. *)
Fixpoint copy_trace (src dst : string) (data : str) (fail_at : option nat)
    (steps : nat) (fs : disk) : list copy_state :=
  match steps with
  | 0 => [CopyState (Copying 0) (<[staging dst := []]> fs)]
  | S k =>
      match copy_trace src dst data fail_at k fs with
      | st :: earlier => copy_step src dst data fail_at st :: st :: earlier
      | [] => []
      end
  end.

(** Modelled from the spec: a staged copy runs to completion or failure. *)
Definition staged_copy (src dst : string) (data : str) (fail_at : option nat)
    (fs : disk) : copy_state :=
  match copy_trace src dst data fail_at (length data + 2) fs with
  | st :: _ => st
  | [] => CopyState Failed fs
  end.

(** Modelled from the spec: the transfer of section 4.4. *)
Definition safe_move (pol : policy) (fail_at : option nat) (fs : disk)
    (req : request) : outcome * disk :=
  match fs !! source req with
  | None => (SourceNotFound, fs)
  | Some data =>
      if String.eqb (source req) (destination req) then (Outcome false, fs)
      else
        let approved :=
          match fs !! destination req with
          | Some old => may_replace pol req (length data) (length old)
          | None => true
          end in
        if negb approved then (Outcome false, fs)
        else if dry_run pol then (Outcome true, fs)
        else if safe_copy pol || negb (same_volume pol) then
          let st := staged_copy (source req) (destination req) data fail_at fs in
          match ph st with
          | Committed => (Outcome true, files st)
          | _ => (Outcome false, files st)
          end
        else
          (Outcome true,
           <[destination req := data]>
             (delete (source req) (delete (destination req) fs)))
  end.

End transfer.

(** ** Auxiliary notions for the statements *)

(** The character at [i] exists and belongs to [cs]. *)
Definition char_ok (ic : bool) (s : str) (cs : cset) (i : nat) : bool :=
  match nth_error s i with
  | Some c => in_cset ic c cs
  | None => false
  end.

(** The word [w] stands at [i] in [s], up to case when [ic] is set. *)
Fixpoint lit_at (ic : bool) (s : str) (i : nat) (w : str) : bool :=
  match w with
  | [] => true
  | c :: w' => char_ok ic s (OneOf [IChr c]) i && lit_at ic s (S i) w'
  end.

(** The number of consecutive good positions from [i], at most [n]. *)
Fixpoint run (good : nat -> bool) (i n : nat) : nat :=
  match n with
  | 0 => 0
  | S n' => if good i then S (run good (S i) n') else 0
  end.

(** [lo + k - 1; ...; lo + 1; lo] *)
Fixpoint downto (lo k : nat) : list nat :=
  match k with
  | 0 => []
  | S k' => lo + k' :: downto lo k'
  end.

Definition shift (st : mstate) (n : nat) : mstate :=
  MState (pos st + n) (caps st).

Definition cap (fuel : nat) (hi : option nat) : nat :=
  match hi with
  | Some h => Nat.min fuel h
  | None => fuel
  end.

(** ** Tokens, as the specification describes them *)

(** The word "part", in any case, starts at [k] after a word boundary. *)
Definition part_at (s : str) (k : nat) : bool :=
  boundary s k && lit_at true s k (L "part").

(** A letter of the roman numerals, in either case. *)
Definition roman_letter (c : ascii) : bool :=
  existsb (ascii_eqb (lower c)) (L "mdclxvi").

(** A digit or a roman numeral starts at [j]. *)
Definition numeral_at (s : str) (j : nat) : bool :=
  match nth_error s j with
  | Some c => is_digit c || roman_letter c
  | None => false
  end.

(** A digit or a roman numeral follows [j], after at most one character of
    punctuation. *)
Definition numeral_after (s : str) (j : nat) : bool :=
  numeral_at s (if char_ok true s (OneOf [INotWord]) j then S j else j).

Definition digit_at (s : str) (i : nat) : bool :=
  match nth_error s i with
  | Some c => is_digit c
  | None => false
  end.

Definition newline_at (s : str) (i : nat) : bool :=
  match nth_error s i with
  | Some c => code c =? 10
  | None => false
  end.

(** A sequence of four digits starts at [j]. *)
Definition digits4_at (s : str) (j : nat) : bool :=
  digit_at s j && digit_at s (j + 1) && digit_at s (j + 2) && digit_at s (j + 3).

(** No line break stands between [a] and [b]. *)
Definition same_line (s : str) (a b : nat) : bool :=
  forallb (fun i => negb (newline_at s i)) (seq a (b - a)).

(** The word [w], in any case, stands at [k] between two word boundaries. *)
Definition token_at (s : str) (k : nat) (w : str) : bool :=
  boundary s k && lit_at true s k w && boundary s (k + length w).

(** The standalone word "proper" stands at [k]. *)
Definition proper_at (s : str) (k : nat) : bool := token_at s k (L "proper").

(** The names under which each category of media is written. *)
Definition aliases (m : Media) : list str :=
  match m with
  | BLURAY => [L "bluray"; L "blu-ray"; L "bdremux"; L "bdrip"]
  | WEBDL => [L "webdl"; L "web-dl"; L "webrip"; L "amzn"; L "nf"; L "hulu";
              L "dsnp"; L "atvp"]
  | HDTV => [L "hdtv"]
  | DVD => [L "dvd"]
  | SDTV => [L "sdtv"]
  | UNKNOWN => []
  end.

(** A token of the category [m] stands at [k]. *)
Definition media_at (s : str) (k : nat) (m : Media) : bool :=
  existsb (token_at s k) (aliases m).

(** The place of a category in the order bluray > webdl > hdtv > dvd > sdtv. *)
Definition precedence (m : Media) : nat :=
  match m with
  | BLURAY => 0
  | WEBDL => 1
  | HDTV => 2
  | DVD => 3
  | SDTV => 4
  | UNKNOWN => 5
  end.

(** The group of the media pattern that stands for a category. *)
Definition group_name (m : Media) : string :=
  match m with
  | BLURAY => "bluray"
  | WEBDL => "webdl"
  | HDTV => "hdtv"
  | DVD => "dvd"
  | SDTV => "sdtv"
  | UNKNOWN => ""
  end.

(** The first two letters of a word, in lower case. *)
Definition head2 (w : str) : option (ascii * ascii) :=
  match w with
  | a :: b :: _ => Some (lower a, lower b)
  | _ => None
  end.

(** The alternative of the media pattern that stands for a category. *)
Definition category_regex (m : Media) : regex :=
  match m with
  | BLURAY => patterns.bluray_alt
  | WEBDL => patterns.webdl_alt
  | HDTV => Lit (L "hdtv")
  | DVD => Lit (L "dvd")
  | SDTV => Lit (L "sdtv")
  | UNKNOWN => Lit []
  end.

(** [r] matches in [s] exactly the words of [ws], in any case. *)
Definition words_regex (s : str) (r : regex) (ws : list str) : Prop :=
  forall st y,
    In y (mt true s r st) <->
    exists w, In w ws /\ lit_at true s (pos st) w = true
              /\ y = shift st (length w).

(** The text in which the parser searches, read off the path from left to
    right: the last component of the path after the last component before
    it that is not empty, with one separator between them.  [folder] is the
    last component that was closed and not empty, [file] the one being
    read. *)
Fixpoint scan_path (p folder file : str) : str * str :=
  match p with
  | [] => (folder, file)
  | c :: p' =>
      if ascii_eqb c "/"
      then scan_path p' (match file with [] => folder | _ => file end) []
      else scan_path p' folder (file ++ [c])
  end.

Definition path_text (p : str) : str :=
  let '(folder, file) := scan_path p [] [] in folder ++ "/"%char :: file.

(** A path separator stands at [j]. *)
Definition sep_at (s : str) (j : nat) : bool :=
  match nth_error s j with
  | Some c => ascii_eqb c "/"
  | None => false
  end.

(** The digit at [j], as a number. *)
Definition digit_value (s : str) (j : nat) : option Z :=
  match nth_error s j with
  | Some c => if is_digit c then Some (Z.of_nat (code c - 48)) else None
  | None => None
  end.

(** The number written by the four digits at [k], when it is a year
    between 1921 and 2159. *)
Definition year_value (s : str) (k : nat) : option Z :=
  match digit_value s k, digit_value s (k + 1),
        digit_value s (k + 2), digit_value s (k + 3) with
  | Some a, Some b, Some c, Some d =>
      let y := (1000 * a + 100 * b + 10 * c + d)%Z in
      if ((1921 <=? y) && (y <=? 2159))%Z then Some y else None
  | _, _, _, _ => None
  end.

(** A year stands at [k] between two word boundaries. *)
Definition year_token (s : str) (k : nat) : bool :=
  boundary s k
  && match year_value s k with Some _ => true | None => false end
  && boundary s (k + 4).

(** A year token stands at [k], which is not the start of the string and
    does not follow a separator. *)
Definition year_at (s : str) (k : nat) : bool :=
  match k with
  | 0 => false
  | S j => negb (sep_at s j) && year_token s k
  end.

(** The digits that the alternatives of the year pattern accept at [k]. *)
Definition year_ok (s : str) (k : nat) : bool :=
  (lit_at false s k (L "192")
   && char_ok false s (OneOf [IRng "1" "9"]) (k + 3))
  || (lit_at false s k (L "19")
      && char_ok false s (OneOf [IRng "3" "9"]) (k + 2)
      && char_ok false s (OneOf [IDigit]) (k + 3))
  || (lit_at false s k (L "20")
      && char_ok false s (OneOf [IRng "0" "9"]) (k + 2)
      && char_ok false s (OneOf [IDigit]) (k + 3))
  || (lit_at false s k (L "21")
      && char_ok false s (OneOf [IRng "0" "5"]) (k + 2)
      && char_ok false s (OneOf [IDigit]) (k + 3)).

(** The right-most year token before [n]. *)
Fixpoint rightmost (s : str) (n : nat) : option nat :=
  match n with
  | 0 => None
  | S n' => if year_at s n' then Some n' else rightmost s n'
  end.

(** From [i] up to [k] the string goes on without a separator. *)
Definition reach (s : str) (i k : nat) : Prop :=
  forall j, i <= j < k -> char_ok false s (NoneOf [IChr sep]) j = true.

(** The match of the year pattern that starts at [i] and finds the year at
    [k]. *)
Definition year_match (i k : nat) : match_obj :=
  Match i (MState (k + 4) [("year"%string, (k, k + 4))]).



(** ** Further notions for the statements *)

(** The ways a resolution is written, each with the resolution it stands
    for. *)
Definition resolution_words : list (str * str) :=
  [(L "720", L "720p"); (L "720p", L "720p");
   (L "1080", L "1080p"); (L "1080p", L "1080p");
   (L "2160", L "2160p"); (L "2160p", L "2160p");
   (L "4K", L "2160p")].

(** A resolution token stands at [k]. *)
Definition resolution_at (s : str) (k : nat) : bool :=
  existsb (fun wr => token_at s k (fst wr)) resolution_words.

(** What [get_resolution] makes of the matched text. *)
Definition normal_resolution (text : str) : str :=
  let r := str_lower text in
  let r := if str_eqb r (L "4k") then L "2160p" else r in
  if existsb (ascii_eqb "p") r then r else r ++ L "p".

(** All the words made of a word of [ws1] followed by a word of [ws2]. *)
Definition word_products (ws1 ws2 : list str) : list str :=
  flat_map (fun w1 => map (app w1) ws2) ws1.

(** The key is not an alternation at its top. *)
Definition plain_key (key : regex) : Prop :=
  match key with
  | Alt _ _ => False
  | _ => True
  end.

(** The characters that [strip_from_title] takes out of a title anywhere:
    the dot, the underscore, the middle dot, brackets, braces and
    parentheses. *)
Definition unwanted (c : ascii) : bool :=
  existsb (ascii_eqb c)
    (L "._" ++ [ascii_of_nat 183] ++ L "[]{}()").

(** Each number from 1921 to 2159 is written by [str] with four digits that
    [int] reads back as the same number. *)
Definition year_texts_ok : bool :=
  forallb
    (fun n =>
       let text := str_of_Z (Z.of_nat n) in
       (length text =? 4) && forallb is_digit text
       && (digits_value 0 text =? Z.of_nat n)%Z)
    (seq 1921 239).

(** A replacement text that Python takes as it is written: it holds no
    backslash, which [re.sub] reads as the start of an escape. *)
Definition plain_text (w : str) : Prop := ~ In "\"%char w.

(** Every character set of [r] accepts characters of [P] only. *)
Fixpoint only (ic : bool) (P : ascii -> bool) (r : regex) : Prop :=
  match r with
  | Chr cs => forall c, in_cset ic c cs = true -> P c = true
  | Seq r1 r2 | Alt r1 r2 => only ic P r1 /\ only ic P r2
  | Rep _ _ _ r' | Grp _ r' | Par r' => only ic P r'
  | Eps | Bnd | Bol | Eol => True
  end.

(** The characters of [s] from [a] up to [b] are characters of [P]. *)
Definition all_between (s : str) (P : ascii -> bool) (a b : nat) : Prop :=
  forall j, a <= j < b -> exists c, nth_error s j = Some c /\ P c = true.

(** A digit or a letter of a Roman numeral, in any case. *)
Definition numeral_letter (c : ascii) : bool :=
  is_digit c || existsb (ascii_eqb (lower c)) (L "mdclxvi").

(** A digit or a capital letter of a Roman numeral. *)
Definition numeral_capital (c : ascii) : bool :=
  is_digit c || existsb (ascii_eqb c) (L "MDCLXVI").
(** * Properties *)

Import parser.

(** ** Strings *)

Lemma ascii_eqb_eq (a b : ascii) : ascii_eqb a b = true <-> a = b.
Proof. unfold ascii_eqb. apply Ascii.eqb_eq. Qed.

Lemma startswith_app (a b : str) :
  startswith a b = true <-> exists c, a = b ++ c.
Proof.
  revert a. induction b as [|y b IH]; intros a; simpl.
  - split; [intros _; now exists a | reflexivity].
  - destruct a as [|x a].
    + split; [discriminate | intros [c Hc]; discriminate].
    + rewrite andb_true_iff, ascii_eqb_eq, IH. split.
      * intros [-> [c ->]]. now exists c.
      * intros [c Hc]. injection Hc as -> ->. split; [reflexivity | now exists c].
Qed.

(** [find] returns the first place where the word occurs. *)
Lemma find_some (w s : str) (i : nat) :
  find w s = Some i ->
  exists b, s = firstn i s ++ w ++ b /\
    forall a b', s = a ++ w ++ b' -> i <= length a.
Proof.
  revert i. induction s as [|x s IH]; intros i.
  - simpl. destruct (startswith [] w) eqn:E; [|discriminate].
    intros [= <-]. apply startswith_app in E as [c Hc].
    exists c. split; [exact Hc | intros; lia].
  - cbn [find]. destruct (startswith (x :: s) w) eqn:E.
    + intros [= <-]. apply startswith_app in E as [c Hc].
      exists c. split; [exact Hc | intros; lia].
    + destruct (find w s) as [j|] eqn:F; [|discriminate].
      intros [= <-]. destruct (IH j eq_refl) as [b [Hb Hmin]].
      exists b. split.
      * simpl. now rewrite <- Hb.
      * intros a b' Hs. destruct a as [|y a].
        -- simpl in Hs. assert (startswith (x :: s) w = true)
             by (apply startswith_app; now exists b').
           congruence.
        -- simpl in Hs. injection Hs as -> Hs. simpl.
           specialize (Hmin a b' Hs). lia.
Qed.

Lemma find_none (w s : str) :
  find w s = None -> forall a b, s <> a ++ w ++ b.
Proof.
  induction s as [|x s IH]; cbn [find].
  - destruct (startswith [] w) eqn:E; [discriminate|].
    intros _ a b Hs. destruct a; [|discriminate]. simpl in Hs.
    assert (startswith [] w = true) by (apply startswith_app; now exists b).
    congruence.
  - destruct (startswith (x :: s) w) eqn:E; [discriminate|].
    destruct (find w s) eqn:F; [discriminate|].
    intros _ a b Hs. destruct a as [|y a].
    + simpl in Hs.
      assert (startswith (x :: s) w = true) by (apply startswith_app; now exists b).
      congruence.
    + simpl in Hs. injection Hs as -> Hs. now apply (IH eq_refl a b).
Qed.

(** ** Paths *)

Definition no_sep (s : str) : Prop := Forall (fun c => is_sep c = false) s.

Lemma take_while_all (f : ascii -> bool) (a b : str) (x : ascii) :
  Forall (fun c => f c = true) a -> f x = false ->
  take_while f (a ++ x :: b) = a /\ drop_while f (a ++ x :: b) = x :: b.
Proof.
  intros Ha Hx. induction Ha as [|c a Hc Ha IH]; simpl.
  - now rewrite Hx.
  - rewrite Hc. destruct IH as [-> ->]. now split.
Qed.

Lemma take_while_whole (f : ascii -> bool) (a : str) :
  Forall (fun c => f c = true) a ->
  take_while f a = a /\ drop_while f a = [].
Proof.
  intros Ha. induction Ha as [|c a Hc Ha IH]; simpl.
  - now split.
  - rewrite Hc. destruct IH as [-> ->]. now split.
Qed.

Lemma take_while_sat (f : ascii -> bool) (s : str) :
  Forall (fun c => f c = true) (take_while f s).
Proof.
  induction s as [|c s IH]; simpl; [constructor|].
  destruct (f c) eqn:E; [now constructor | constructor].
Qed.

Lemma no_sep_negb (s : str) :
  no_sep s <-> Forall (fun c => negb (is_sep c) = true) s.
Proof.
  unfold no_sep. split; intros H; induction H; constructor; auto;
    destruct (is_sep x); simpl in *; congruence.
Qed.

Lemma basename_no_sep (p : str) : no_sep (basename p).
Proof.
  unfold basename. apply no_sep_negb. apply List.Forall_rev. apply take_while_sat.
Qed.

Lemma is_sep_sep : is_sep sep = true.
Proof. reflexivity. Qed.

Lemma basename_join (folder file : str) :
  no_sep file -> basename (folder ++ sep :: file) = file.
Proof.
  intros Hf. unfold basename.
  rewrite rev_app_distr. simpl. rewrite <- app_assoc. simpl.
  destruct (take_while_all (fun c => negb (is_sep c)) (rev file) (rev folder) sep)
    as [-> _].
  - apply List.Forall_rev. now apply no_sep_negb.
  - reflexivity.
  - apply rev_involutive.
Qed.

Lemma basename_whole (s : str) : no_sep s -> basename s = s.
Proof.
  intros Hs. unfold basename.
  destruct (take_while_whole (fun c => negb (is_sep c)) (rev s)) as [-> _].
  - apply List.Forall_rev. now apply no_sep_negb.
  - apply rev_involutive.
Qed.

Lemma dirname_join (folder file : str) :
  no_sep folder -> no_sep file ->
  basename (dirname (folder ++ sep :: file)) = folder.
Proof.
  intros Hd Hf. unfold dirname.
  rewrite rev_app_distr. simpl. rewrite <- app_assoc. simpl.
  destruct (take_while_all (fun c => negb (is_sep c)) (rev file) (rev folder) sep)
    as [_ ->].
  - apply List.Forall_rev. now apply no_sep_negb.
  - reflexivity.
  - simpl. rewrite rev_involutive.
    destruct folder as [|c folder].
    + reflexivity.
    + inversion Hd as [|? ? Hc Hd']; subst. simpl. rewrite Hc. simpl.
      rewrite rev_app_distr. simpl.
      assert (E : drop_while is_sep (rev folder ++ [c]) = rev folder ++ [c]).
      { destruct (rev folder) as [|y l] eqn:R; simpl.
        - now rewrite Hc.
        - assert (Hy : In y (rev folder)) by (rewrite R; now left).
          apply in_rev in Hy.
          rewrite List.Forall_forall in Hd'. now rewrite (Hd' y Hy). }
      rewrite E. rewrite rev_app_distr, rev_involutive. simpl.
      now apply basename_whole.
Qed.

(** [get_edition] hands [_edition_map] the joined folder and file name, which
    is split again into the same two names. *)
Lemma folder_file_idem (source_path : str) :
  folder_file (folder_file source_path) = folder_file source_path.
Proof.
  unfold folder_file at 1. unfold folder_of, file_of.
  unfold folder_file, folder_of, file_of.
  rewrite dirname_join by apply basename_no_sep.
  rewrite basename_join by apply basename_no_sep.
  reflexivity.
Qed.

Lemma basename_snoc (q : str) (c : ascii) :
  basename (q ++ [c]) = if is_sep c then [] else basename q ++ [c].
Proof.
  unfold basename. rewrite rev_app_distr. cbn [rev app take_while].
  destruct (is_sep c); reflexivity.
Qed.

Lemma forallb_rev_sep (r : str) : forallb is_sep (rev r) = forallb is_sep r.
Proof.
  induction r as [|x r IH]; [reflexivity|].
  cbn [rev forallb]. rewrite forallb_app, IH. cbn [forallb].
  rewrite andb_true_r. apply andb_comm.
Qed.

(** [dirname] and the folder name, on the reversed path. *)
Lemma folder_of_rev (q : str) :
  basename (dirname q)
  = rev (take_while (fun c => negb (is_sep c))
           (let d := drop_while (fun c => negb (is_sep c)) (rev q) in
            if forallb is_sep d then d else drop_while is_sep d)).
Proof.
  unfold basename, dirname. cbv zeta.
  rewrite forallb_rev_sep.
  destruct (forallb is_sep (drop_while _ (rev q))); now rewrite !rev_involutive.
Qed.

Lemma folder_snoc (q : str) (c : ascii) :
  basename (dirname (q ++ [c]))
  = if is_sep c
    then match basename q with [] => basename (dirname q) | _ => basename q end
    else basename (dirname q).
Proof.
  rewrite !folder_of_rev. unfold basename. rewrite rev_app_distr.
  cbn [rev app drop_while]. cbv zeta.
  destruct (is_sep c) eqn:C; cbn [negb]; [|reflexivity].
  destruct (rev q) as [|x r];
    [repeat (cbn [take_while drop_while forallb negb andb rev]; rewrite ?C);
     reflexivity|].
  destruct (is_sep x) eqn:X; destruct (forallb is_sep r) eqn:A;
    repeat (cbn [take_while drop_while forallb negb andb]; rewrite ?C, ?X, ?A);
    try reflexivity.
  - destruct (rev (x :: take_while (fun c0 => negb (is_sep c0)) r)) eqn:E;
      [|reflexivity].
    cbn [rev] in E. now apply app_eq_nil in E as [_ E].
  - destruct (rev (x :: take_while (fun c0 => negb (is_sep c0)) r)) eqn:E;
      [|reflexivity].
    cbn [rev] in E. now apply app_eq_nil in E as [_ E].
Qed.

Lemma scan_path_spec (p q : str) :
  scan_path p (folder_of q) (basename q)
  = (folder_of (q ++ p), basename (q ++ p)).
Proof.
  revert q. induction p as [|c p IH]; intros q.
  - now rewrite app_nil_r.
  - cbn [scan_path]. change (ascii_eqb c "/") with (is_sep c).
    replace (q ++ c :: p) with ((q ++ [c]) ++ p) by (now rewrite <- app_assoc).
    rewrite <- IH. unfold folder_of. rewrite folder_snoc, basename_snoc.
    destruct (is_sep c); reflexivity.
Qed.

(** The text in which the parser searches is the folder and file name of the
    path. *)
Lemma folder_file_text (p : str) : folder_file p = path_text p.
Proof.
  unfold path_text. change (scan_path p [] []) with
    (scan_path p (folder_of []) (basename [])).
  rewrite scan_path_spec. reflexivity.
Qed.

(** ** The matcher *)

Section Matcher.

Variables (ic : bool) (s : str).

Lemma shift_0 (st : mstate) : shift st 0 = st.
Proof. destruct st as [p c]. unfold shift. simpl. now rewrite Nat.add_0_r. Qed.

Lemma shift_advance (st : mstate) (n : nat) :
  shift (advance st) n = shift st (S n).
Proof. unfold shift, advance. simpl. f_equal. lia. Qed.

Lemma shift_shift (st : mstate) (n m : nat) :
  shift (shift st n) m = shift st (n + m).
Proof. unfold shift. simpl. f_equal. lia. Qed.

Lemma mt_Chr (cs : cset) (st : mstate) :
  mt ic s (Chr cs) st = if char_ok ic s cs (pos st) then [advance st] else [].
Proof. unfold char_ok. simpl. now destruct (nth_error s (pos st)). Qed.

Lemma mt_Lit (w : str) (st : mstate) :
  mt ic s (Lit w) st
  = if lit_at ic s (pos st) w then [shift st (length w)] else [].
Proof.
  revert st. induction w as [|c w IH]; intros st.
  - simpl. now rewrite shift_0.
  - cbn [Lit lit_at]. cbn [mt]. fold (mt ic s (Chr (OneOf [IChr c])) st).
    rewrite mt_Chr. destruct (char_ok ic s (OneOf [IChr c]) (pos st)); simpl.
    + rewrite app_nil_r, IH. simpl.
      destruct (lit_at ic s (S (pos st)) w); [|reflexivity].
      now rewrite shift_advance.
    + reflexivity.
Qed.

Lemma downto_S (lo k : nat) : downto lo (S k) = downto (S lo) k ++ [lo].
Proof.
  induction k as [|k IH].
  - simpl. now rewrite Nat.add_0_r.
  - change (downto lo (S (S k))) with (lo + S k :: downto lo (S k)).
    rewrite IH. simpl. f_equal. lia.
Qed.

Lemma downto_shift (lo k : nat) : downto (S lo) k = map S (downto lo k).
Proof. induction k as [|k IH]; simpl; [reflexivity | now rewrite IH]. Qed.

Lemma in_downto (lo k n : nat) : In n (downto lo k) <-> lo <= n < lo + k.
Proof.
  induction k as [|k IH]; simpl.
  - lia.
  - rewrite IH. lia.
Qed.

Lemma map_shift_advance (st : mstate) (l : list nat) :
  map (shift (advance st)) l = map (shift st) (map S l).
Proof.
  rewrite map_map. apply map_ext. intros n. apply shift_advance.
Qed.

(** The order in which a loop over one character lists its results. *)
Definition loop_order (greedy : bool) (lo k : nat) : list nat :=
  if greedy then downto lo k else seq lo k.

Lemma loop_order_S (greedy : bool) (lo k : nat) :
  loop_order greedy lo (S k)
  = if greedy then map S (loop_order greedy lo k) ++ [lo]
    else lo :: map S (loop_order greedy lo k).
Proof.
  unfold loop_order. destruct greedy.
  - now rewrite downto_S, downto_shift.
  - simpl. now rewrite seq_shift.
Qed.

Lemma in_loop_order (greedy : bool) (lo k n : nat) :
  In n (loop_order greedy lo k) <-> lo <= n < lo + k.
Proof.
  unfold loop_order. destruct greedy; [apply in_downto | rewrite in_seq; lia].
Qed.

(** A loop over a test of one character stops where the test fails: it
    offers every length from [lo] to the length of the run, the longest
    first when greedy. *)
Lemma rep_char (good : nat -> bool) (step : mstate -> list mstate)
    (greedy : bool) :
  (forall st, step st = if good (pos st) then [advance st] else []) ->
  forall fuel lo hi st,
    rep step greedy fuel lo hi st
    = map (shift st)
        (loop_order greedy lo (S (run good (pos st) (cap fuel hi)) - lo)).
Proof.
  intros Hstep. induction fuel as [|fuel IH]; intros lo hi st.
  - assert (E : cap 0 hi = 0) by (destruct hi; reflexivity).
    rewrite E. simpl. destruct lo; simpl.
    + unfold loop_order. destruct greedy; simpl; now rewrite shift_0.
    + unfold loop_order. now destruct greedy.
  - cbn [rep]. rewrite Hstep.
    destruct (hi_open hi) eqn:Hopen; [destruct (good (pos st)) eqn:Hg|].
    + assert (E : cap (S fuel) hi = S (cap fuel (hi_pred hi))).
      { destruct hi as [[|h]|]; simpl in *; [discriminate | reflexivity | reflexivity]. }
      rewrite E. cbn [run]. rewrite Hg. cbn [flat_map]. rewrite app_nil_r.
      assert (Hlt : (pos st <? pos (advance st)) = true)
        by (apply Nat.ltb_lt; simpl; lia).
      rewrite Hlt. cbn [orb]. rewrite IH. cbn [pos advance].
      set (m := run good (S (pos st)) (cap fuel (hi_pred hi))).
      rewrite map_shift_advance.
      destruct lo as [|lo].
      * cbn [Nat.eqb Nat.pred]. rewrite Nat.sub_0_r.
        replace (S (S m) - 0) with (S (S m)) by lia.
        rewrite (loop_order_S greedy 0 (S m)).
        destruct greedy.
        -- rewrite map_app. simpl. now rewrite shift_0.
        -- simpl. now rewrite shift_0.
      * cbn [Nat.eqb Nat.pred].
        replace (S (S m) - S lo) with (S m - lo) by lia.
        assert (El : forall k, map S (loop_order greedy lo k)
                               = loop_order greedy (S lo) k).
        { intros k. unfold loop_order. destruct greedy;
            [now rewrite downto_shift | now rewrite seq_shift]. }
        rewrite El. destruct greedy; [now rewrite app_nil_r | reflexivity].
    + assert (E : run good (pos st) (cap (S fuel) hi) = 0).
      { destruct (cap (S fuel) hi); simpl; [reflexivity | now rewrite Hg]. }
      rewrite E. simpl. destruct lo; simpl.
      * unfold loop_order. destruct greedy; simpl; now rewrite shift_0.
      * unfold loop_order. now destruct greedy.
    + assert (E : cap (S fuel) hi = 0).
      { destruct hi as [[|h]|]; simpl in *; [reflexivity | discriminate | discriminate]. }
      rewrite E. simpl. destruct lo; simpl.
      * unfold loop_order. destruct greedy; simpl; now rewrite shift_0.
      * unfold loop_order. now destruct greedy.
Qed.

Lemma run_le (good : nat -> bool) (i k n : nat) :
  n <= run good i k <-> n <= k /\ forall j, j < n -> good (i + j) = true.
Proof.
  revert i n. induction k as [|k IH]; intros i n; simpl.
  - split; [intros H; split; [lia | intros j Hj; lia] | intros [H _]; lia].
  - destruct (good i) eqn:Hg.
    + destruct n as [|n].
      * split; [intros _; split; [lia | intros j Hj; lia] | lia].
      * rewrite <- Nat.succ_le_mono, IH. split.
        -- intros [Hn Hall]. split; [lia|]. intros [|j] Hj.
           ++ now rewrite Nat.add_0_r.
           ++ replace (i + S j) with (S i + j) by lia. apply Hall. lia.
        -- intros [Hn Hall]. split; [lia|]. intros j Hj.
           replace (S i + j) with (i + S j) by lia. apply Hall. lia.
    + split.
      * intros H. assert (n = 0) by lia. subst. split; [lia | intros j Hj; lia].
      * intros [_ Hall]. destruct n; [lia|].
        specialize (Hall 0 ltac:(lia)). rewrite Nat.add_0_r in Hall. congruence.
Qed.

Lemma run_bound (good : nat -> bool) (i k : nat) : run good i k <= k.
Proof. now apply (run_le good i k (run good i k)). Qed.

Lemma char_ok_lt (cs : cset) (i : nat) :
  char_ok ic s cs i = true -> i < length s.
Proof.
  unfold char_ok. destruct (nth_error s i) eqn:E; [|discriminate].
  intros _. apply nth_error_Some. congruence.
Qed.

(** [Rep lo hi greedy (Chr cs)] in [mt]. *)
Lemma mt_Rep_Chr (lo : nat) (hi : option nat) (greedy : bool) (cs : cset)
    (st : mstate) :
  mt ic s (Rep lo hi greedy (Chr cs)) st
  = map (shift st)
      (loop_order greedy lo
         (S (run (char_ok ic s cs) (pos st) (cap (lo + S (length s)) hi)) - lo)).
Proof.
  cbn [mt]. apply rep_char. intros st'. apply mt_Chr.
Qed.

End Matcher.

(** ** Searching *)

Section Search.

Variables (p : pattern) (s : str).

Lemma first_match_seq_none (a n : nat) :
  first_match p s (seq a n) = None <->
  forall i, a <= i < a + n -> match_at p s false i = None.
Proof.
  revert a. induction n as [|n IH]; intros a; simpl.
  - split; [intros _ i Hi; lia | reflexivity].
  - destruct (match_at p s false a) as [m|] eqn:E.
    + split; [discriminate|]. intros H. rewrite (H a) in E by lia. discriminate.
    + rewrite IH. split.
      * intros H i Hi. destruct (Nat.eq_dec i a) as [->|Hne]; [exact E|].
        apply H. lia.
      * intros H i Hi. apply H. lia.
Qed.

Lemma first_match_seq_some (a n : nat) (m : match_obj) :
  first_match p s (seq a n) = Some m <->
  exists i, a <= i < a + n /\ match_at p s false i = Some m
            /\ forall j, a <= j < i -> match_at p s false j = None.
Proof.
  revert a. induction n as [|n IH]; intros a; simpl.
  - split; [discriminate | intros [i [Hi _]]; lia].
  - destruct (match_at p s false a) as [m'|] eqn:E.
    + split.
      * intros [= <-]. exists a. split; [lia|]. split; [exact E|]. intros j Hj; lia.
      * intros [i [Hi [Hm Hno]]].
        destruct (Nat.eq_dec i a) as [->|Hne]; [congruence|].
        rewrite (Hno a) in E by lia. discriminate.
    + rewrite IH. split.
      * intros [i [Hi [Hm Hno]]]. exists i. split; [lia|]. split; [exact Hm|].
        intros j Hj. destruct (Nat.eq_dec j a) as [->|Hne]; [exact E|].
        apply Hno. lia.
      * intros [i [Hi [Hm Hno]]]. exists i.
        assert (i <> a) by (intros ->; congruence).
        split; [lia|]. split; [exact Hm|]. intros j Hj. apply Hno. lia.
Qed.

Lemma search_from_seq (e : nat) :
  search_from p s false e = first_match p s (seq e (S (length s - e))).
Proof. unfold search_from. simpl. now destruct (match_at p s false e). Qed.

Lemma search_seq : search p s = first_match p s (seq 0 (S (length s))).
Proof. unfold search. rewrite search_from_seq. now rewrite Nat.sub_0_r. Qed.

Lemma match_at_start (b : bool) (i : nat) (m : match_obj) :
  match_at p s b i = Some m -> m_start m = i.
Proof.
  unfold match_at.
  destruct (if b then _ else _) as [|st l]; [discriminate|].
  now intros [= <-].
Qed.

(** A search succeeds exactly when the pattern matches from some start. *)
Lemma search_some_iff :
  (exists m, search p s = Some m) <->
  exists i, i <= length s /\ mt (p_ic p) s (p_re p) (init i) <> [].
Proof.
  rewrite search_seq. split.
  - intros [m Hm]. apply first_match_seq_some in Hm as [i [Hi [Hm _]]].
    exists i. split; [lia|]. unfold match_at in Hm.
    destruct (mt (p_ic p) s (p_re p) (init i)); [discriminate | discriminate].
  - intros [i [Hi Hne]].
    destruct (first_match p s (seq 0 (S (length s)))) as [m|] eqn:E.
    + now exists m.
    + exfalso. rewrite first_match_seq_none in E.
      specialize (E i ltac:(lia)). unfold match_at in E.
      destruct (mt (p_ic p) s (p_re p) (init i)); [now apply Hne | discriminate].
Qed.

End Search.

(** ** One step of the matcher *)

Section Steps.

Variable s : str.

Lemma mt_Seq ic (r1 r2 : regex) (st : mstate) :
  mt ic s (Seq r1 r2) st = flat_map (mt ic s r2) (mt ic s r1 st).
Proof. reflexivity. Qed.

Lemma mt_Alt ic (r1 r2 : regex) (st : mstate) :
  mt ic s (Alt r1 r2) st = mt ic s r1 st ++ mt ic s r2 st.
Proof. reflexivity. Qed.

Lemma mt_Grp ic (g : string) (r : regex) (st : mstate) :
  mt ic s (Grp g r) st = map (close_group g (pos st)) (mt ic s r st).
Proof. reflexivity. Qed.

Lemma mt_Par ic (r : regex) (st : mstate) :
  mt ic s (Par r) st = mt ic s r st.
Proof. reflexivity. Qed.

Lemma mt_Bnd ic (st : mstate) :
  mt ic s Bnd st = if boundary s (pos st) then [st] else [].
Proof. reflexivity. Qed.

Lemma run_bad (good : nat -> bool) (i n : nat) :
  good i = false -> run good i n = 0.
Proof. intros H. destruct n; simpl; [reflexivity | now rewrite H]. Qed.

Lemma mt_Rep_Chr_bad ic (lo : nat) (hi : option nat) (greedy : bool)
    (cs : cset) (st : mstate) :
  char_ok ic s cs (pos st) = false ->
  mt ic s (Rep lo hi greedy (Chr cs)) st = if lo =? 0 then [st] else [].
Proof.
  intros H. rewrite mt_Rep_Chr, run_bad by exact H.
  destruct lo; simpl.
  - unfold loop_order. destruct greedy; simpl; now rewrite shift_0.
  - unfold loop_order. now destruct greedy.
Qed.

Lemma mt_Lit_bad ic (c : ascii) (w : str) (st : mstate) :
  char_ok ic s (OneOf [IChr c]) (pos st) = false ->
  mt ic s (Lit (c :: w)) st = [].
Proof. intros H. rewrite mt_Lit. cbn [lit_at]. now rewrite H. Qed.

End Steps.

(** ** The part number *)

Section Part.

Variable s : str.

Lemma numeral_at_false (j : nat) :
  numeral_at s j = false ->
  char_ok true s (OneOf [IDigit]) j = false
  /\ forall x, In x (L "MDCLXVI") -> char_ok true s (OneOf [IChr x]) j = false.
Proof.
  unfold numeral_at, char_ok. destruct (nth_error s j) as [c|]; [|now split].
  intros H. apply orb_false_iff in H as [Hd Hr]. split.
  - simpl. now rewrite Hd.
  - unfold roman_letter in Hr. simpl in Hr.
    repeat (apply orb_false_iff in Hr as [? Hr]).
    intros x Hx. simpl in Hx.
    repeat (destruct Hx as [<-|Hx]; [simpl; rewrite orb_false_r; assumption|]).
    destruct Hx.
Qed.

(** Where neither a digit nor a roman letter stands, the numeral of the part
    pattern matches the empty text, and only that. *)
Lemma mt_numeral_empty (st : mstate) :
  numeral_at s (pos st) = false ->
  mt true s (Alt (Plus patterns.D) patterns.roman) st
  = [close_group "5" (pos st)
       (close_group "4" (pos st) (close_group "3" (pos st) st))].
Proof.
  intros H. apply numeral_at_false in H as [Hd Hr].
  assert (HM := Hr "M"%char ltac:(simpl; tauto)).
  assert (HD := Hr "D"%char ltac:(simpl; tauto)).
  assert (HC := Hr "C"%char ltac:(simpl; tauto)).
  assert (HL := Hr "L"%char ltac:(simpl; tauto)).
  assert (HX := Hr "X"%char ltac:(simpl; tauto)).
  assert (HV := Hr "V"%char ltac:(simpl; tauto)).
  assert (HI := Hr "I"%char ltac:(simpl; tauto)).
  rewrite mt_Alt. unfold Plus, patterns.D.
  rewrite (mt_Rep_Chr_bad s true 1 None true _ st Hd). cbn [Nat.eqb app].
  unfold patterns.roman, Upto, Opt, patterns.C.
  cbn [L list_ascii_of_string].
  rewrite mt_Seq, (mt_Rep_Chr_bad s true 0 _ true _ st HM).
  cbn [Nat.eqb flat_map]. rewrite app_nil_r.
  rewrite mt_Seq, mt_Grp, !mt_Alt.
  rewrite (mt_Lit_bad s true "C" _ st HC), (mt_Lit_bad s true "C" _ st HC).
  rewrite mt_Seq, (mt_Rep_Chr_bad s true 0 _ true _ st HD).
  cbn [Nat.eqb flat_map app]. rewrite (mt_Rep_Chr_bad s true 0 _ true _ st HC).
  cbn [Nat.eqb flat_map app map].
  set (st3 := close_group "3" (pos st) st).
  assert (P3 : pos st3 = pos st) by reflexivity.
  rewrite mt_Seq, mt_Grp, !mt_Alt.
  rewrite (mt_Lit_bad s true "X" _ st3), (mt_Lit_bad s true "X" _ st3)
    by (rewrite P3; exact HX).
  rewrite mt_Seq, (mt_Rep_Chr_bad s true 0 _ true _ st3) by (rewrite P3; exact HL).
  cbn [Nat.eqb flat_map app].
  rewrite (mt_Rep_Chr_bad s true 0 _ true _ st3) by (rewrite P3; exact HX).
  cbn [Nat.eqb flat_map app map].
  set (st4 := close_group "4" (pos st3) st3).
  assert (P4 : pos st4 = pos st) by reflexivity.
  rewrite mt_Grp, !mt_Alt.
  rewrite (mt_Lit_bad s true "I" _ st4), (mt_Lit_bad s true "I" _ st4)
    by (rewrite P4; exact HI).
  rewrite mt_Seq, (mt_Rep_Chr_bad s true 0 _ true _ st4) by (rewrite P4; exact HV).
  cbn [Nat.eqb flat_map app].
  rewrite (mt_Rep_Chr_bad s true 0 _ true _ st4) by (rewrite P4; exact HI).
  cbn [Nat.eqb flat_map app map].
  reflexivity.
Qed.

Lemma mt_part_group_empty (st : mstate) :
  numeral_at s (pos st) = false ->
  exists st', mt true s patterns.part_group st = [st']
              /\ lookup_cap "part" (caps st') = Some (pos st, pos st).
Proof.
  intros H. unfold patterns.part_group.
  rewrite mt_Grp, mt_Par, mt_Grp, (mt_numeral_empty st H).
  cbn [map]. eexists. split; [reflexivity|]. reflexivity.
Qed.

Lemma part_no_match (i : nat) :
  part_at s i = false -> mt true s (p_re patterns.part) (init i) = [].
Proof.
  unfold part_at. intros H. unfold patterns.part. cbn [p_re].
  rewrite mt_Seq, mt_Bnd. cbn [pos init].
  destruct (boundary s i); [|reflexivity].
  cbn [flat_map]. rewrite mt_Seq, mt_Lit. cbn [pos init].
  cbn [andb] in H. now rewrite H.
Qed.

Lemma part_match_empty (k : nat) :
  part_at s k = true -> numeral_after s (k + 4) = false ->
  exists st l j, mt true s (p_re patterns.part) (init k) = st :: l
                 /\ lookup_cap "part" (caps st) = Some (j, j).
Proof.
  unfold part_at, numeral_after. intros H Hn.
  apply andb_true_iff in H as [Hb Hl].
  unfold patterns.part. cbn [p_re].
  rewrite mt_Seq, mt_Bnd. cbn [pos init]. rewrite Hb.
  cbn [flat_map]. rewrite app_nil_r, mt_Seq, mt_Lit. cbn [pos init].
  rewrite Hl. cbn [flat_map]. rewrite app_nil_r.
  rewrite mt_Seq. unfold Opt. rewrite mt_Rep_Chr.
  cbn [cap]. rewrite Nat.add_0_l.
  replace (Nat.min (S (length s)) 1) with 1 by (destruct (length s); reflexivity).
  set (st := shift (init k) (length (L "part"))).
  assert (Hpos : pos st = k + 4) by reflexivity. rewrite Hpos.
  cbn [run]. destruct (char_ok true s (OneOf [INotWord]) (k + 4)).
  - cbn [Nat.sub loop_order downto map flat_map].
    destruct (mt_part_group_empty (shift st (0 + 1))) as [st' [E Hcap]].
    { cbn [pos shift]. rewrite Hpos. now replace (k + 4 + (0 + 1)) with (S (k + 4)) by lia. }
    rewrite E. cbn [app]. eauto.
  - cbn [Nat.sub loop_order downto map flat_map].
    destruct (mt_part_group_empty (shift st (0 + 0))) as [st' [E Hcap]].
    { cbn [pos shift]. rewrite Hpos. now replace (k + 4 + (0 + 0)) with (k + 4) by lia. }
    rewrite E. cbn [app]. eauto.
Qed.

Lemma lit_at_lt ic (i : nat) (c : ascii) (w : str) :
  lit_at ic s i (c :: w) = true -> i < length s.
Proof.
  cbn [lit_at]. intros H. apply andb_true_iff in H as [H _].
  now apply char_ok_lt in H.
Qed.

End Part.

(** C10, as amended: when the left-most "part" that starts a word of the
    folder and file name is followed, after at most one character of
    punctuation, by neither a digit nor a roman numeral, the part is the empty
    string, not none. *)
Theorem get_part_empty (source_path : str) (k : nat) :
  part_at (path_text source_path) k = true ->
  (forall k', k' < k -> part_at (path_text source_path) k' = false) ->
  numeral_after (path_text source_path) (k + 4) = false ->
  get_part source_path = Some [].
Proof.
  rewrite <- !folder_file_text.
  intros Hk Hfirst Hnum. unfold get_part.
  set (s := folder_file source_path) in *.
  destruct (part_match_empty s k Hk Hnum) as [st [l [j [Hmt Hcap]]]].
  assert (Hs : search patterns.part s = Some (Match k st)).
  { rewrite search_seq. apply first_match_seq_some. exists k. split; [|split].
    - unfold part_at in Hk. apply andb_true_iff in Hk as [_ Hk].
      apply lit_at_lt in Hk. lia.
    - unfold match_at. cbn [p_ic patterns.part]. change (Seq Bnd _) with (p_re patterns.part).
      now rewrite Hmt.
    - intros i Hi. unfold match_at. cbn [p_ic patterns.part].
      change (Seq Bnd _) with (p_re patterns.part).
      rewrite (part_no_match s i); [reflexivity | apply Hfirst; lia]. }
  rewrite Hs. unfold group. cbn [m_state]. rewrite Hcap.
  unfold substr. now rewrite Nat.sub_diag.
Qed.

Lemma get_part_empty_witness :
  part_at (path_text (L "films/Movie part.zzz")) 12 = true
  /\ get_part (L "films/Movie part.zzz") = Some [].
Proof.
  split; [reflexivity|].
  apply (get_part_empty (L "films/Movie part.zzz") 12).
  - reflexivity.
  - intros k' Hk'.
    do 12 (destruct k' as [|k']; [reflexivity|]). lia.
  - reflexivity.
Defined.

(** C10, as stated, fails: a standalone "part" without a number does not
    give the empty string when another "part" stands before it. *)
Lemma get_part_not_any_token :
  ~ (forall (source_path : str) (k : nat),
       token_at (folder_file source_path) k (L "part") = true ->
       numeral_after (folder_file source_path) (k + 4) = false ->
       get_part source_path = Some []).
Proof.
  intros H.
  specialize (H (L "films/Part 2 part.zzz") 13 eq_refl eq_refl).
  vm_compute in H. discriminate H.
Qed.

(** ** Proper *)

Section Proper.

Variable s : str.

Lemma mt_Eps ic (st : mstate) : mt ic s Eps st = [st].
Proof. reflexivity. Qed.

(** A named word between two word boundaries. *)
Lemma mt_token ic (g : string) (w : str) (st : mstate) :
  mt ic s (Seq Bnd (Seq (Grp g (Lit w)) Bnd)) st
  = if boundary s (pos st) && lit_at ic s (pos st) w
       && boundary s (pos st + length w)
    then [MState (pos st + length w)
            ((g, (pos st, pos st + length w)) :: caps st)]
    else [].
Proof.
  rewrite mt_Seq, mt_Bnd. destruct (boundary s (pos st)); [|reflexivity].
  cbn [flat_map andb]. rewrite app_nil_r, mt_Seq, mt_Grp, mt_Lit.
  destruct (lit_at ic s (pos st) w); [|reflexivity].
  cbn [map flat_map andb]. rewrite app_nil_r, mt_Bnd.
  cbn [pos close_group shift].
  destruct (boundary s (pos st + length w)); reflexivity.
Qed.

Lemma char_ok_digit ic (i : nat) :
  char_ok ic s (OneOf [IDigit]) i = digit_at s i.
Proof.
  unfold char_ok, digit_at. destruct (nth_error s i); [|reflexivity].
  simpl. apply orb_false_r.
Qed.

Lemma char_ok_any ic (i : nat) :
  char_ok ic s Any i = true <-> i < length s /\ newline_at s i = false.
Proof.
  unfold char_ok, newline_at. destruct (nth_error s i) as [c|] eqn:E.
  - assert (i < length s) by (apply nth_error_Some; congruence).
    simpl. rewrite negb_true_iff. tauto.
  - apply nth_error_None in E. split; [discriminate | lia].
Qed.

Lemma digits4_run ic (j : nat) :
  digits4_at s j = true <-> 4 <= run (char_ok ic s (OneOf [IDigit])) j 4.
Proof.
  rewrite run_le. unfold digits4_at. rewrite !andb_true_iff. split.
  - intros [[[H0 H1] H2] H3]. split; [lia|]. intros i Hi.
    rewrite char_ok_digit.
    destruct i as [|[|[|[|i]]]]; try lia; try assumption.
    now rewrite Nat.add_0_r.
  - intros [_ H]. rewrite <- !(char_ok_digit ic).
    repeat split; [rewrite <- (Nat.add_0_r j) | | |]; apply H; lia.
Qed.

Lemma same_line_iff (a b : nat) :
  same_line s a b = true <-> forall i, a <= i < b -> newline_at s i = false.
Proof.
  unfold same_line. rewrite forallb_forall. split.
  - intros H i Hi. apply negb_true_iff. apply H. apply in_seq. lia.
  - intros H i Hi. apply in_seq in Hi. apply negb_true_iff. apply H. lia.
Qed.

Lemma token_at_lt (k : nat) (c : ascii) (w : str) :
  token_at s k (c :: w) = true -> k < length s.
Proof.
  unfold token_at. rewrite !andb_true_iff. intros [[_ H] _].
  now apply lit_at_lt in H.
Qed.

(** How [\d{4}.*?\b(?P<proper>proper)\b] matches from [i]. *)
Lemma mt_proper_iff (i : nat) (st : mstate) :
  In st (mt true s (p_re patterns.proper) (init i)) <->
  digits4_at s i = true /\
  exists k, i + 4 <= k /\ same_line s (i + 4) k = true
            /\ proper_at s k = true
            /\ st = MState (k + 6) [("proper"%string, (k, k + 6))].
Proof.
  unfold patterns.proper. cbn [p_re]. rewrite mt_Seq, in_flat_map.
  unfold Times, patterns.D. setoid_rewrite mt_Rep_Chr.
  replace (cap (4 + S (length s)) (Some 4)) with 4
    by (cbn [cap]; now rewrite Nat.min_r by lia).
  cbn [pos init].
  set (m := run (char_ok true s (OneOf [IDigit])) i 4).
  assert (Hm : m <= 4) by apply run_bound.
  split.
  - intros [y [Hy Hst]]. apply in_map_iff in Hy as [n [<- Hn]].
    apply in_loop_order in Hn.
    assert (m = 4) by lia. assert (n = 4) by lia. subst n.
    split; [apply (digits4_run true); fold m; lia|].
    rewrite mt_Seq in Hst. apply in_flat_map in Hst as [z [Hz Hst]].
    rewrite mt_Rep_Chr in Hz. apply in_map_iff in Hz as [n [<- Hn']].
    apply in_loop_order in Hn'. cbn [pos shift init cap] in Hn'.
    rewrite !Nat.add_0_l in Hn'.
    rewrite (mt_token true) in Hst. cbn [pos shift init caps] in Hst.
    fold (token_at s (i + 4 + n) (L "proper")) in Hst.
    destruct (token_at s (i + 4 + n) (L "proper")) eqn:Htok; [|destruct Hst].
    destruct Hst as [<-|[]]. exists (i + 4 + n). split; [lia|].
    split; [|split; [exact Htok | reflexivity]].
    apply same_line_iff. intros j Hj.
    assert (Hrun : S (j - (i + 4))
                   <= run (char_ok true s Any) (i + 4) (S (length s))) by lia.
    apply run_le in Hrun as [_ Hrun].
    specialize (Hrun (j - (i + 4)) ltac:(lia)).
    replace (i + 4 + (j - (i + 4))) with j in Hrun by lia.
    now apply char_ok_any in Hrun.
  - intros [Hd [k [Hk [Hline [Htok ->]]]]].
    apply (digits4_run true) in Hd. fold m in Hd.
    exists (shift (init i) 4). split.
    + apply in_map_iff. exists 4. split; [reflexivity|].
      apply in_loop_order. lia.
    + rewrite mt_Seq. apply in_flat_map.
      exists (shift (shift (init i) 4) (k - (i + 4))). split.
      * rewrite mt_Rep_Chr. apply in_map_iff. eexists. split; [reflexivity|].
        apply in_loop_order. cbn [pos shift init cap]. rewrite !Nat.add_0_l.
        assert (Hlt : k < length s) by (apply (token_at_lt k _ _ Htok)).
        assert (k - (i + 4) <= run (char_ok true s Any) (i + 4) (S (length s))).
        { apply run_le. split; [lia|]. intros j Hj. apply char_ok_any.
          split; [lia|]. rewrite same_line_iff in Hline. apply Hline. lia. }
        lia.
      * rewrite (mt_token true). cbn [pos shift init caps].
        replace (i + 4 + (k - (i + 4))) with k by lia.
        fold (token_at s k (L "proper")). unfold proper_at in Htok.
        rewrite Htok. now left.
Qed.

End Proper.

Lemma lit_at_len ic (s : str) (i : nat) (c : ascii) (w : str) :
  lit_at ic s i (c :: w) = true -> i + length (c :: w) <= length s.
Proof.
  revert i c. induction w as [|d w IH]; intros i c H;
    cbn [lit_at] in H; apply andb_true_iff in H as [Hc Hw];
    apply char_ok_lt in Hc.
  - simpl. lia.
  - specialize (IH (S i) d Hw). simpl in *. lia.
Qed.

Lemma truthy_span (s : str) (m : match_obj) (g : string) (a b : nat) :
  lookup_cap g (caps (m_state m)) = Some (a, b) ->
  a < b -> b <= length s ->
  truthy s (Some m) g = true.
Proof.
  intros Hcap Hab Hb. unfold truthy, group. rewrite Hcap. unfold substr.
  destruct (firstn (b - a) (skipn a s)) eqn:E; [|reflexivity].
  apply (f_equal (@length ascii)) in E.
  rewrite length_firstn, length_skipn in E. simpl in E. lia.
Qed.

Lemma match_at_in (p : pattern) (s : str) (i : nat) (m : match_obj) :
  match_at p s false i = Some m ->
  m_start m = i /\ In (m_state m) (mt (p_ic p) s (p_re p) (init i)).
Proof.
  unfold match_at. destruct (mt (p_ic p) s (p_re p) (init i)) as [|st l];
    [discriminate|].
  intros [= <-]. split; [reflexivity | now left].
Qed.

Lemma search_in (p : pattern) (s : str) (m : match_obj) :
  search p s = Some m ->
  m_start m <= length s
  /\ In (m_state m) (mt (p_ic p) s (p_re p) (init (m_start m))).
Proof.
  rewrite search_seq. intros H.
  apply first_match_seq_some in H as [i [Hi [Hm _]]].
  apply match_at_in in Hm as [-> Hin]. split; [lia | exact Hin].
Qed.

(** C5, as amended: the file is a proper exactly when the standalone word
    "proper", in any case, is found after a sequence of four digits on the
    same line of the folder and file name. *)
Theorem is_proper_iff (source_path : str) :
  is_proper source_path = true <->
  exists j k, digits4_at (path_text source_path) j = true
              /\ j + 4 <= k
              /\ same_line (path_text source_path) (j + 4) k = true
              /\ proper_at (path_text source_path) k = true.
Proof.
  rewrite <- !folder_file_text.
  unfold is_proper. set (s := folder_file source_path).
  assert (Htruthy : forall m, search patterns.proper s = Some m ->
                              truthy s (Some m) "proper" = true).
  { intros m Hm. apply search_in in Hm as [_ Hin].
    apply mt_proper_iff in Hin as [_ [k [_ [_ [Htok Hst]]]]].
    apply (truthy_span s m "proper" k (k + 6)).
    - rewrite Hst. reflexivity.
    - lia.
    - unfold proper_at, token_at in Htok. rewrite !andb_true_iff in Htok.
      destruct Htok as [[_ Hl] _]. apply lit_at_len in Hl. simpl in Hl. lia. }
  split.
  - intros H. destruct (search patterns.proper s) as [m|] eqn:E; [|discriminate].
    apply search_in in E as [_ Hin].
    apply mt_proper_iff in Hin as [Hd [k [Hk [Hl [Htok _]]]]].
    exists (m_start m), k. auto.
  - intros [j [k [Hd [Hk [Hl Htok]]]]].
    destruct (proj2 (search_some_iff patterns.proper s)) as [m Hm].
    + exists j. split.
      * apply token_at_lt in Htok. lia.
      * intros E.
        assert (Hin : In (MState (k + 6) [("proper"%string, (k, k + 6))])
                         (mt true s (p_re patterns.proper) (init j))).
        { apply mt_proper_iff. split; [exact Hd|]. exists k. auto. }
        change (p_ic patterns.proper) with true in E. rewrite E in Hin.
        destruct Hin.
    + rewrite Hm. now apply Htruthy.
Qed.

Lemma is_proper_iff_witness :
  is_proper (L "films/Rogue.One.2016.PROPER.1080p.mkv") = true.
Proof.
  apply is_proper_iff. exists 16, 21. vm_compute. auto.
Defined.

(** C5, as stated, fails: a line break between the four digits and the word
    "proper" keeps the word from being honoured. *)
Lemma is_proper_not_across_lines :
  ~ (forall source_path : str,
       is_proper source_path = true <->
       exists j k, digits4_at (folder_file source_path) j = true
                   /\ j + 4 <= k
                   /\ proper_at (folder_file source_path) k = true).
Proof.
  intros H.
  specialize (H (L "films/Movie 2016" ++ [ascii_of_nat 10] ++ L "proper.mkv")).
  assert (E : is_proper (L "films/Movie 2016" ++ [ascii_of_nat 10] ++ L "proper.mkv")
              = true).
  { apply H. exists 12, 17. vm_compute. auto. }
  vm_compute in E. discriminate E.
Qed.

(** ** Media *)

Section MediaSteps.

Variables (ic : bool) (s : str).

Lemma lit_at_app (i : nat) (u v : str) :
  lit_at ic s i (u ++ v) = lit_at ic s i u && lit_at ic s (i + length u) v.
Proof.
  revert i. induction u as [|c u IH]; intros i; cbn [app lit_at length].
  - now rewrite Nat.add_0_r.
  - rewrite IH, andb_assoc. now replace (S i + length u) with (i + S (length u)) by lia.
Qed.

Lemma in_mt_Lit (w : str) (st y : mstate) :
  In y (mt ic s (Lit w) st) <->
  lit_at ic s (pos st) w = true /\ y = shift st (length w).
Proof.
  rewrite mt_Lit. destruct (lit_at ic s (pos st) w); simpl.
  - split; [intros [<-|[]]; auto | intros [_ ->]; auto].
  - split; [intros [] | intros [H _]; discriminate].
Qed.

(** A word with an optional character in the middle: [u c? v]. *)
Lemma in_mt_opt_word (u v : str) (c : ascii) (st y : mstate) :
  In y (mt ic s (Seq (Lit u) (Seq (Opt (patterns.C c)) (Lit v))) st) <->
  (lit_at ic s (pos st) (u ++ c :: v) = true
   /\ y = shift st (length (u ++ c :: v)))
  \/ (lit_at ic s (pos st) (u ++ v) = true /\ y = shift st (length (u ++ v))).
Proof.
  rewrite mt_Seq, in_flat_map. setoid_rewrite in_mt_Lit.
  setoid_rewrite mt_Seq. setoid_rewrite in_flat_map.
  unfold Opt, patterns.C. setoid_rewrite mt_Rep_Chr.
  setoid_rewrite in_map_iff. setoid_rewrite in_loop_order.
  setoid_rewrite in_mt_Lit. rewrite !lit_at_app, !length_app.
  cbn [lit_at length]. rewrite !andb_true_iff.
  cbn [cap]. rewrite Nat.add_0_l.
  replace (Nat.min (S (length s)) 1) with 1 by (destruct (length s); reflexivity).
  split.
  - intros [x [[Hu ->] [z [[n [<- Hn]] [Hv ->]]]]].
    cbn [pos shift] in *. cbn [run] in Hn.
    destruct (char_ok ic s (OneOf [IChr c]) (pos st + length u)) eqn:Hc.
    + assert (Hn' : n = 0 \/ n = 1) by lia. destruct Hn' as [-> | ->].
      * right. rewrite Nat.add_0_r in Hv. split; [auto|].
        rewrite ?shift_shift; unfold shift; cbn [pos caps]; f_equal; lia.
      * left. replace (pos st + length u + 1) with (S (pos st + length u)) in Hv by lia.
        split; [auto|]. rewrite ?shift_shift; unfold shift; cbn [pos caps]; f_equal; lia.
    + assert (n = 0) by lia. subst n. right.
      rewrite Nat.add_0_r in Hv. split; [auto|].
      rewrite ?shift_shift; unfold shift; cbn [pos caps]; f_equal; lia.
  - intros [[[Hu [Hc Hv]] ->] | [[Hu Hv] ->]].
    + exists (shift st (length u)). split; [auto|].
      exists (shift (shift st (length u)) 1). split.
      * exists 1. split; [reflexivity|]. cbn [pos shift run]. rewrite Hc. lia.
      * cbn [pos shift].
        replace (pos st + length u + 1) with (S (pos st + length u)) by lia.
        split; [exact Hv|]. rewrite ?shift_shift; unfold shift; cbn [pos caps]; f_equal; lia.
    + exists (shift st (length u)). split; [auto|].
      exists (shift (shift st (length u)) 0). split.
      * exists 0. split; [reflexivity|]. lia.
      * cbn [pos shift]. rewrite Nat.add_0_r.
        split; [exact Hv|]. rewrite ?shift_shift; unfold shift; cbn [pos caps]; f_equal; lia.
Qed.

Lemma in_mt_Grp (g : string) (r : regex) (st y : mstate) :
  In y (mt ic s (Grp g r) st) <->
  exists z, In z (mt ic s r st) /\ y = close_group g (pos st) z.
Proof.
  rewrite mt_Grp, in_map_iff. split; intros [z [H1 H2]]; exists z; auto.
Qed.

(** An expression between two word boundaries. *)
Lemma in_mt_delimited (r : regex) (st y : mstate) :
  In y (mt ic s (Seq Bnd (Seq r Bnd)) st) <->
  boundary s (pos st) = true /\ In y (mt ic s r st)
  /\ boundary s (pos y) = true.
Proof.
  rewrite mt_Seq, mt_Bnd. destruct (boundary s (pos st)); cbn [flat_map].
  - rewrite app_nil_r, mt_Seq, in_flat_map. split.
    + intros [z [Hz Hy]]. rewrite mt_Bnd in Hy.
      destruct (boundary s (pos z)) eqn:Hb; [|destruct Hy].
      destruct Hy as [<-|[]]. auto.
    + intros [_ [Hy Hb]]. exists y. split; [exact Hy|].
      rewrite mt_Bnd, Hb. now left.
  - split; [intros [] | intros [H _]; discriminate].
Qed.

End MediaSteps.

Section Media.

Variable s : str.

Lemma words_Lit (w : str) : words_regex s (Lit w) [w].
Proof.
  intros st y. rewrite in_mt_Lit. split.
  - intros [H ->]. exists w. simpl. auto.
  - intros [w' [[<-|[]] [H ->]]]. auto.
Qed.

Lemma words_opt (u v : str) (c : ascii) :
  words_regex s (Seq (Lit u) (Seq (Opt (patterns.C c)) (Lit v)))
              [u ++ v; u ++ c :: v].
Proof.
  intros st y. rewrite in_mt_opt_word. split.
  - intros [[H ->] | [H ->]]; eexists; simpl; eauto.
  - intros [w [[<-|[<-|[]]] [H ->]]]; auto.
Qed.

Lemma words_Alt (r1 r2 : regex) (ws1 ws2 : list str) :
  words_regex s r1 ws1 -> words_regex s r2 ws2 ->
  words_regex s (Alt r1 r2) (ws1 ++ ws2).
Proof.
  intros H1 H2 st y. rewrite mt_Alt, in_app_iff, (H1 st y), (H2 st y). split.
  - intros [[w [Hw H]] | [w [Hw H]]]; exists w; rewrite in_app_iff; auto.
  - intros [w [Hw H]]. apply in_app_iff in Hw as [Hw|Hw]; [left|right];
      exists w; auto.
Qed.

Lemma words_category (m : Media) :
  m <> UNKNOWN -> words_regex s (category_regex m) (aliases m).
Proof.
  intros Hm. destruct m; cbn [category_regex aliases].
  - unfold patterns.bluray_alt.
    apply (words_Alt _ _ [L "bluray"; L "blu-ray"] [L "bdremux"; L "bdrip"]).
    + apply (words_opt (L "blu") (L "ray") "-").
    + apply (words_Alt _ _ [L "bdremux"] [L "bdrip"]); apply words_Lit.
  - unfold patterns.webdl_alt.
    apply (words_Alt _ _ [L "webdl"; L "web-dl"]
             [L "webrip"; L "amzn"; L "nf"; L "hulu"; L "dsnp"; L "atvp"]).
    + apply (words_opt (L "web") (L "dl") "-").
    + apply (words_Alt _ _ [L "webrip"]
               [L "amzn"; L "nf"; L "hulu"; L "dsnp"; L "atvp"]);
        [apply words_Lit|].
      apply (words_Alt _ _ [L "amzn"] [L "nf"; L "hulu"; L "dsnp"; L "atvp"]);
        [apply words_Lit|].
      apply (words_Alt _ _ [L "nf"] [L "hulu"; L "dsnp"; L "atvp"]);
        [apply words_Lit|].
      apply (words_Alt _ _ [L "hulu"] [L "dsnp"; L "atvp"]);
        [apply words_Lit|].
      apply (words_Alt _ _ [L "dsnp"] [L "atvp"]); apply words_Lit.
  - apply words_Lit.
  - apply words_Lit.
  - apply words_Lit.
  - contradiction.
Qed.

(** How the media pattern matches from [i]: by a token of one category. *)
Lemma mt_media_iff (i : nat) (st : mstate) :
  In st (mt true s (p_re patterns.media) (init i)) <->
  exists m w, In w (aliases m) /\ token_at s i w = true
              /\ st = MState (i + length w)
                        [(group_name m, (i, i + length w))].
Proof.
  unfold patterns.media. cbn [p_re]. rewrite in_mt_delimited, mt_Par.
  change (Lit (L "hdtv")) with (category_regex HDTV).
  change (Lit (L "dvd")) with (category_regex DVD).
  change (Lit (L "sdtv")) with (category_regex SDTV).
  change patterns.bluray_alt with (category_regex BLURAY).
  change patterns.webdl_alt with (category_regex WEBDL).
  rewrite !mt_Alt, !in_app_iff, !in_mt_Grp. cbn [pos init].
  assert (Hcat : forall m, m <> UNKNOWN ->
    (boundary s i = true
     /\ (exists z, In z (mt true s (category_regex m) (init i))
                   /\ st = close_group (group_name m) i z)
     /\ boundary s (pos st) = true)
    <-> exists w, In w (aliases m) /\ token_at s i w = true
                  /\ st = MState (i + length w)
                            [(group_name m, (i, i + length w))]).
  { intros m Hm. unfold token_at. split.
    - intros [Hb [[z [Hz ->]] Hb']].
      apply (words_category m Hm) in Hz as [w [Hw [Hl ->]]].
      cbn [pos init shift close_group caps] in *.
      exists w. rewrite Hb, Hl, Hb'. auto.
    - intros [w [Hw [Ht ->]]]. rewrite !andb_true_iff in Ht.
      destruct Ht as [[Hb Hl] Hb']. split; [exact Hb|]. split; [|exact Hb'].
      exists (shift (init i) (length w)). split; [|reflexivity].
      apply (words_category m Hm). exists w. auto. }
  split.
  - intros [Hb [H Hb']].
    destruct H as [H|[H|[H|[H|H]]]];
      [exists BLURAY | exists WEBDL | exists HDTV | exists DVD | exists SDTV];
      apply Hcat; try discriminate; auto.
  - intros [m [w H]].
    assert (Hm : m <> UNKNOWN) by (intros ->; destruct H as [[] _]).
    assert (H' := proj2 (Hcat m Hm) (ex_intro _ w H)).
    destruct H' as [Hb [Hz Hb']]. split; [exact Hb|]. split; [|exact Hb'].
    destruct m; [| | | | |contradiction]; cbn [group_name] in Hz; tauto.
Qed.

Lemma lit_at_head2 (i : nat) (w w' : str) (h h' : ascii * ascii) :
  lit_at true s i w = true -> lit_at true s i w' = true ->
  head2 w = Some h -> head2 w' = Some h' -> h = h'.
Proof.
  destruct w as [|a [|b w]]; [discriminate | discriminate|].
  destruct w' as [|a' [|b' w']]; [discriminate | discriminate|].
  cbn [lit_at head2]. unfold char_ok.
  destruct (nth_error s i) as [x|]; [|discriminate].
  destruct (nth_error s (S i)) as [y|]; [|rewrite andb_false_r; discriminate].
  cbn [in_cset existsb in_item]. rewrite !orb_false_r, !andb_true_iff.
  intros [Ha [Hb _]] [Ha' [Hb' _]] [= <-] [= <-].
  apply ascii_eqb_eq in Ha, Hb, Ha', Hb'. congruence.
Qed.

(** Two categories share no first two letters. *)
Lemma heads_disjoint (m m' : Media) (w w' : str) :
  In w (aliases m) -> In w' (aliases m') -> head2 w = head2 w' -> m = m'.
Proof.
  destruct m, m'; cbn [aliases]; intros Hw Hw' Hh; try reflexivity; exfalso;
    simpl in Hw, Hw';
    repeat (destruct Hw as [<-|Hw];
            [repeat (destruct Hw' as [<-|Hw'];
                     [vm_compute in Hh; discriminate Hh|]);
             exact Hw'|]);
    exact Hw.
Qed.

Lemma alias_head2 (m : Media) (w : str) :
  In w (aliases m) -> exists h, head2 w = Some h.
Proof.
  destruct m; simpl; intros H;
    repeat (destruct H as [<-|H]; [eexists; reflexivity|]); destruct H.
Qed.

(** At one place, tokens of one category only. *)
Lemma media_at_unique (k : nat) (m m' : Media) (w w' : str) :
  In w (aliases m) -> token_at s k w = true ->
  In w' (aliases m') -> token_at s k w' = true -> m = m'.
Proof.
  intros Hw Ht Hw' Ht'. unfold token_at in Ht, Ht'.
  rewrite !andb_true_iff in Ht, Ht'.
  destruct Ht as [[_ Hl] _], Ht' as [[_ Hl'] _].
  destruct (alias_head2 m w Hw) as [h Hh].
  destruct (alias_head2 m' w' Hw') as [h' Hh'].
  apply (heads_disjoint m m' w w' Hw Hw').
  rewrite Hh, Hh'. f_equal. exact (lit_at_head2 k w w' h h' Hl Hl' Hh Hh').
Qed.

End Media.

Lemma media_at_iff (s : str) (k : nat) (m : Media) :
  media_at s k m = true <->
  exists w, In w (aliases m) /\ token_at s k w = true.
Proof. unfold media_at. apply existsb_exists. Qed.

Lemma get_media_of_match (source_path : str) (mo : match_obj) (m : Media)
    (a b : nat) :
  search patterns.media (folder_file source_path) = Some mo ->
  caps (m_state mo) = [(group_name m, (a, b))] ->
  a < b -> b <= length (folder_file source_path) ->
  m <> UNKNOWN ->
  get_media source_path = m.
Proof.
  intros Hs Hcaps Hab Hb Hm. unfold get_media. rewrite Hs.
  assert (T : truthy (folder_file source_path) (Some mo) (group_name m) = true).
  { apply (truthy_span _ mo _ a b); [rewrite Hcaps; simpl | |]; auto.
    now rewrite String.eqb_refl. }
  assert (F : forall g, String.eqb g (group_name m) = false ->
                        truthy (folder_file source_path) (Some mo) g = false).
  { intros g Hg. unfold truthy, group. rewrite Hcaps. simpl. now rewrite Hg. }
  destruct m; cbn [group_name] in T, F; try contradiction;
    rewrite ?T, ?(F "bluray"%string), ?(F "webdl"%string),
      ?(F "hdtv"%string), ?(F "dvd"%string) by reflexivity;
    rewrite ?T; reflexivity.
Qed.

(** C2, as amended: the media is the category of the left-most media token of
    the folder and file name, whatever the categories of the tokens that
    follow it; without a media token it is unknown. *)
Theorem get_media_leftmost (source_path : str) :
  (forall k m,
      media_at (path_text source_path) k m = true ->
      (forall k' m', k' < k -> media_at (path_text source_path) k' m' = false) ->
      get_media source_path = m)
  /\ ((forall k m, media_at (path_text source_path) k m = false) ->
      get_media source_path = UNKNOWN).
Proof.
  rewrite <- !folder_file_text.
  set (s := folder_file source_path).
  assert (Hnone : forall i, (forall m, media_at s i m = false) ->
                            match_at patterns.media s false i = None).
  { intros i Hi. unfold match_at. cbn [p_ic patterns.media].
    change (Seq Bnd _) with (p_re patterns.media).
    destruct (mt true s (p_re patterns.media) (init i)) as [|st l] eqn:E;
      [reflexivity|].
    assert (Hin : In st (mt true s (p_re patterns.media) (init i)))
      by (rewrite E; now left).
    apply mt_media_iff in Hin as [m [w [Hw [Ht _]]]].
    assert (media_at s i m = true) by (apply media_at_iff; eauto).
    rewrite Hi in H. discriminate. }
  split.
  - intros k m Hk Hfirst. apply media_at_iff in Hk as [w [Hw Ht]].
    assert (Hin : In (MState (k + length w) [(group_name m, (k, k + length w))])
                     (mt true s (p_re patterns.media) (init k)))
      by (apply mt_media_iff; eauto).
    destruct (mt true s (p_re patterns.media) (init k)) as [|st l] eqn:E;
      [destruct Hin|].
    assert (Hst : In st (mt true s (p_re patterns.media) (init k)))
      by (rewrite E; now left).
    apply mt_media_iff in Hst as [m0 [w0 [Hw0 [Ht0 Hst]]]].
    assert (m0 = m) by exact (media_at_unique s k m0 m w0 w Hw0 Ht0 Hw Ht).
    subst m0.
    assert (Hlen : k + length w0 <= length s /\ 0 < length w0).
    { unfold token_at in Ht0. rewrite !andb_true_iff in Ht0.
      destruct Ht0 as [[_ Hl] _]. destruct w0 as [|c w0].
      - destruct (alias_head2 m [] Hw0) as [h Hh]. discriminate.
      - apply lit_at_len in Hl. simpl in *. lia. }
    apply (get_media_of_match source_path (Match k st) m k (k + length w0)).
    + fold s. rewrite search_seq. apply first_match_seq_some.
      exists k. split; [lia|]. split.
      * unfold match_at. cbn [p_ic patterns.media].
        change (Seq Bnd _) with (p_re patterns.media). now rewrite E.
      * intros j Hj. apply Hnone. intros m'. apply Hfirst. lia.
    + cbn [m_state]. now rewrite Hst.
    + lia.
    + fold s. lia.
    + intros ->. destruct Hw.
  - intros Hno. unfold get_media. fold s.
    assert (E : search patterns.media s = None).
    { rewrite search_seq. apply first_match_seq_none.
      intros i _. apply Hnone. intros m. apply Hno. }
    rewrite E. reflexivity.
Qed.

Lemma get_media_leftmost_witness :
  get_media (L "films/Movie.HDTV.BluRay.mkv") = HDTV.
Proof.
  apply (proj1 (get_media_leftmost (L "films/Movie.HDTV.BluRay.mkv")) 12 HDTV).
  - reflexivity.
  - intros k' m' Hk'.
    do 12 (destruct k' as [|k']; [destruct m'; reflexivity|]). lia.
Defined.

(** C2, as stated, fails: with an hdtv token before a bluray token the media
    is hdtv. *)
Lemma get_media_not_by_precedence :
  ~ (forall (source_path : str) (m : Media),
       (exists k, media_at (folder_file source_path) k m = true) ->
       (forall k' m', media_at (folder_file source_path) k' m' = true ->
                      precedence m <= precedence m') ->
       get_media source_path = m).
Proof.
  intros H.
  specialize (H (L "films/Movie.HDTV.BluRay.mkv") BLURAY).
  assert (E : get_media (L "films/Movie.HDTV.BluRay.mkv") = BLURAY).
  { apply H.
    - exists 17. reflexivity.
    - intros k' m' _. simpl. lia. }
  vm_compute in E. discriminate E.
Qed.

(** ** The year *)

Section YearDigits.

Variable s : str.

Lemma mt_Lit_then ic (w : str) (r : regex) (st : mstate) :
  mt ic s (Seq (Lit w) r) st
  = if lit_at ic s (pos st) w then mt ic s r (shift st (length w)) else [].
Proof.
  rewrite mt_Seq, mt_Lit. destruct (lit_at ic s (pos st) w); [|reflexivity].
  cbn [flat_map]. apply app_nil_r.
Qed.

Lemma mt_Chr_then ic (cs : cset) (r : regex) (st : mstate) :
  mt ic s (Seq (Chr cs) r) st
  = if char_ok ic s cs (pos st) then mt ic s r (advance st) else [].
Proof.
  rewrite mt_Seq, mt_Chr. destruct (char_ok ic s cs (pos st)); [|reflexivity].
  cbn [flat_map]. apply app_nil_r.
Qed.

Lemma code_inj (x c : ascii) : code x = code c -> x = c.
Proof.
  unfold code. intros H.
  rewrite <- (ascii_nat_embedding x), <- (ascii_nat_embedding c). now rewrite H.
Qed.

Lemma in_chr (x c : ascii) :
  in_cset false x (OneOf [IChr c]) = (code x =? code c).
Proof.
  simpl. rewrite orb_false_r. destruct (ascii_eqb x c) eqn:E.
  - apply ascii_eqb_eq in E. subst. symmetry. apply Nat.eqb_refl.
  - symmetry. apply Nat.eqb_neq. intros H. apply code_inj in H.
    apply ascii_eqb_eq in H. congruence.
Qed.

Lemma in_rng (x lo hi : ascii) :
  in_cset false x (OneOf [IRng lo hi])
  = (code lo <=? code x) && (code x <=? code hi).
Proof. simpl. unfold between. now rewrite !orb_false_r. Qed.

Lemma in_dig ic (x : ascii) :
  in_cset ic x (OneOf [IDigit]) = (48 <=? code x) && (code x <=? 57).
Proof. simpl. unfold is_digit, between. now rewrite orb_false_r. Qed.

Lemma skipn_nth (k : nat) :
  skipn k s = match nth_error s k with
              | Some x => x :: skipn (S k) s
              | None => []
              end.
Proof.
  revert k. induction s as [|c l IH]; intros k.
  - destruct k; reflexivity.
  - destruct k as [|k]; [reflexivity|]. simpl. apply IH.
Qed.

Lemma substr4 (k : nat) : substr s k (k + 4) = firstn 4 (skipn k s).
Proof. unfold substr. now replace (k + 4 - k) with 4 by lia. Qed.

End YearDigits.

Section YearAlt.

Variable s : str.

Lemma in_if_singleton (b : bool) (x y : mstate) :
  In y (if b then [x] else []) <-> b = true /\ y = x.
Proof.
  destruct b; simpl.
  - split; [intros [<-|[]]; auto | intros [_ ->]; auto].
  - split; [intros [] | intros [H _]; discriminate].
Qed.

Lemma advance2_shift2 (st : mstate) :
  advance (advance (shift st 2)) = shift st 4.
Proof. unfold advance, shift. simpl. f_equal. lia. Qed.

Lemma advance_shift3 (st : mstate) : advance (shift st 3) = shift st 4.
Proof. unfold advance, shift. simpl. f_equal. lia. Qed.

(** The alternatives of the year pattern, one by one. *)
Lemma mt_year_alt (st y : mstate) :
  In y (mt false s patterns.year_alt st) <->
  year_ok s (pos st) = true /\ y = shift st 4.
Proof.
  unfold patterns.year_alt, patterns.R, patterns.D, year_ok.
  rewrite !mt_Alt, !in_app_iff, !mt_Lit_then, !mt_Chr_then, !mt_Chr.
  cbn [pos shift advance length L list_ascii_of_string].
  replace (S (pos st + 2)) with (pos st + 3) by lia.
  rewrite advance_shift3, advance2_shift2.
  destruct (lit_at false s (pos st) ["1"; "9"; "2"]%char);
    destruct (lit_at false s (pos st) ["1"; "9"]%char);
    destruct (lit_at false s (pos st) ["2"; "0"]%char);
    destruct (lit_at false s (pos st) ["2"; "1"]%char);
    destruct (char_ok false s (OneOf [IRng "1" "9"]) (pos st + 3));
    destruct (char_ok false s (OneOf [IRng "3" "9"]) (pos st + 2));
    destruct (char_ok false s (OneOf [IRng "0" "9"]) (pos st + 2));
    destruct (char_ok false s (OneOf [IRng "0" "5"]) (pos st + 2));
    destruct (char_ok false s (OneOf [IDigit]) (pos st + 3));
    cbn [andb orb In]; intuition (try discriminate; try congruence).
Qed.

End YearAlt.

Ltac bool_to_prop :=
  rewrite ?andb_true_r in *;
  repeat (progress
            rewrite ?andb_true_iff, ?orb_true_iff, ?andb_false_iff,
              ?orb_false_iff, ?Nat.eqb_eq, ?Nat.leb_le, ?Nat.leb_gt,
              ?Z.leb_le, ?Z.leb_gt in *).

Section YearValue.

Variable s : str.

(** The number of the four digits is the one that [int] reads from them. *)
Lemma year_value_int_eq (k : nat) :
  year_value s k
  = match py_int (substr s k (k + 4)) with
    | Some y => if ((1921 <=? y) && (y <=? 2159))%Z then Some y else None
    | None => None
    end.
Proof.
  unfold year_value, digit_value. rewrite substr4.
  rewrite (skipn_nth s k), (skipn_nth s (S k)), (skipn_nth s (S (S k))),
    (skipn_nth s (S (S (S k)))).
  replace (k + 1) with (S k) by lia.
  replace (k + 2) with (S (S k)) by lia.
  replace (k + 3) with (S (S (S k))) by lia.
  destruct (nth_error s k) as [x0|]; [|reflexivity].
  destruct (nth_error s (S k)) as [x1|];
    [destruct (nth_error s (S (S k))) as [x2|];
     [destruct (nth_error s (S (S (S k)))) as [x3|]|]|];
    unfold py_int; cbn [firstn forallb digits_value andb]; rewrite ?firstn_O;
    cbn [firstn forallb digits_value andb];
    destruct (is_digit x0) eqn:D0; try reflexivity;
    try (destruct (is_digit x1) eqn:D1; try reflexivity);
    try (destruct (is_digit x2) eqn:D2; try reflexivity);
    try (destruct (is_digit x3) eqn:D3; try reflexivity);
    cbn [andb];
    unfold is_digit, between in *;
    set (n0 := code x0) in *; try set (n1 := code x1) in *;
    try set (n2 := code x2) in *; try set (n3 := code x3) in *.
  all: try (match goal with
            | |- None = (if ?r then _ else _) => destruct r eqn:R; [|reflexivity]
            end; exfalso; bool_to_prop; lia).
  match goal with
  | |- context [(10 * (10 * (10 * (10 * 0 + ?a) + ?b) + ?c) + ?d)%Z] =>
      replace (10 * (10 * (10 * (10 * 0 + a) + b) + c) + d)%Z
        with (1000 * a + 100 * b + 10 * c + d)%Z by lia
  end.
  reflexivity.
Qed.

(** The alternatives of the year pattern accept the numbers from 1921 to
    2159, written with four digits. *)
Lemma year_ok_value (k : nat) :
  year_ok s k = true <-> exists y, year_value s k = Some y.
Proof.
  setoid_rewrite year_value_int_eq. unfold year_ok. rewrite substr4.
  rewrite (skipn_nth s k), (skipn_nth s (S k)), (skipn_nth s (S (S k))),
    (skipn_nth s (S (S (S k)))).
  replace (k + 2) with (S (S k)) by lia.
  replace (k + 3) with (S (S (S k))) by lia.
  cbn [lit_at L list_ascii_of_string]. unfold char_ok.
  destruct (nth_error s k) as [x0|];
    [|cbn; split; [discriminate | intros [y Hy]; discriminate]].
  destruct (nth_error s (S k)) as [x1|];
    [destruct (nth_error s (S (S k))) as [x2|];
     [destruct (nth_error s (S (S (S k)))) as [x3|]|]|];
    rewrite ?in_chr, ?in_rng, ?(in_dig false);
    unfold py_int, is_digit, between;
    cbn [firstn forallb digits_value andb]; rewrite ?firstn_O;
    cbn [firstn forallb digits_value andb];
    change (code "0"%char) with 48; change (code "1"%char) with 49;
    change (code "2"%char) with 50; change (code "3"%char) with 51;
    change (code "5"%char) with 53; change (code "9"%char) with 57;
    set (n0 := code x0) in *; try set (n1 := code x1) in *;
    try set (n2 := code x2) in *; try set (n3 := code x3) in *;
    match goal with
    | |- _ <-> exists y, match (if ?d then _ else _) with _ => _ end = _ =>
        destruct d eqn:D
    end;
    try match goal with
    | |- _ <-> exists y, (if ?r then _ else _) = _ => destruct r eqn:R
    end;
    (split; [intros H | intros [y Hy]]);
    try discriminate Hy; try (eexists; reflexivity);
    first [bool_to_prop; lia | exfalso; bool_to_prop; lia].
Qed.

End YearValue.

Section YearMatch.

Variable s : str.

Lemma in_year_tail (st y : mstate) :
  In y (mt false s patterns.year_tail st) <->
  year_token s (pos st) = true
  /\ y = MState (pos st + 4) (("year"%string, (pos st, pos st + 4)) :: caps st).
Proof.
  unfold patterns.year_tail, year_token. rewrite in_mt_delimited, in_mt_Grp.
  setoid_rewrite mt_year_alt. rewrite !andb_true_iff. split.
  - intros [Hb [[z [[Hok ->] ->]] Hb']]. cbn [pos shift close_group caps] in *.
    apply year_ok_value in Hok as [v Hv]. rewrite Hv. auto.
  - intros [[[Hb Hv] Hb'] ->]. cbn [pos].
    split; [exact Hb|]. split; [|exact Hb'].
    exists (shift st 4). split; [|reflexivity]. split; [|reflexivity].
    apply year_ok_value. destruct (year_value s (pos st)) as [v|];
      [now exists v | discriminate].
Qed.

Lemma flat_map_map {A B C : Type} (f : B -> list C) (g : A -> B) (l : list A) :
  flat_map f (map g l) = flat_map (fun x => f (g x)) l.
Proof. induction l as [|x l IH]; simpl; [reflexivity | now rewrite IH]. Qed.

(** The first result of a search that goes down from [lo + m - 1] to [lo]. *)
Lemma flat_map_downto_hd {A : Type} (f : nat -> list A) (lo m : nat) :
  match flat_map f (downto lo m) with
  | y :: _ =>
      exists n, lo <= n < lo + m /\ (exists l, f n = y :: l)
                /\ forall n', n < n' < lo + m -> f n' = []
  | [] => forall n, lo <= n < lo + m -> f n = []
  end.
Proof.
  induction m as [|m IH]; cbn [downto flat_map].
  - intros n Hn. lia.
  - destruct (f (lo + m)) as [|y l] eqn:E; cbn [app].
    + destruct (flat_map f (downto lo m)) as [|y' l'].
      * intros n Hn. destruct (Nat.eq_dec n (lo + m)) as [->|Hne];
          [exact E | apply IH; lia].
      * destruct IH as [n [Hn [Hy Hafter]]]. exists n. split; [lia|].
        split; [exact Hy|]. intros n' Hn'.
        destruct (Nat.eq_dec n' (lo + m)) as [->|Hne];
          [exact E | apply Hafter; lia].
    + exists (lo + m). split; [lia|]. split; [now exists l|].
      intros n' Hn'. lia.
Qed.

Lemma reach_run (i n fuel : nat) :
  length s <= fuel ->
  (n <= run (char_ok false s (NoneOf [IChr sep])) i fuel <-> reach s i (i + n)).
Proof.
  intros Hfuel. rewrite run_le. unfold reach. split.
  - intros [_ H] j Hj. replace j with (i + (j - i)) by lia. apply H. lia.
  - intros H. split.
    + destruct n as [|n]; [lia|].
      specialize (H (i + n) ltac:(lia)). apply char_ok_lt in H. lia.
    + intros j Hj. apply H. lia.
Qed.

(** How the year pattern matches from [i]: at the last year token that can
    be reached from [i] without meeting a separator. *)
Lemma year_match_at (i : nat) :
  match match_at patterns.year s false i with
  | Some mo =>
      exists k, i < k /\ year_token s k = true /\ reach s i k
                /\ (forall k', k < k' -> year_token s k' = true -> ~ reach s i k')
                /\ mo = Match i (MState (k + 4) [("year"%string, (k, k + 4))])
  | None => forall k, i < k -> year_token s k = true -> ~ reach s i k
  end.
Proof.
  unfold match_at. cbn [p_ic p_re patterns.year].
  rewrite mt_Seq. unfold Plus. rewrite mt_Rep_Chr.
  cbn [cap pos init]. rewrite flat_map_map.
  set (F := 1 + S (length s)).
  set (m := run (char_ok false s (NoneOf [IChr "/"])) i F).
  replace (S m - 1) with m by lia. unfold loop_order.
  assert (Hreach : forall n, n <= m <-> reach s i (i + n))
    by (intros n; apply reach_run; unfold F; lia).
  assert (Htail : forall n,
             mt false s patterns.year_tail (shift (init i) n) = [] <->
             year_token s (i + n) = false).
  { intros n. split.
    - intros E. destruct (year_token s (i + n)) eqn:T; [|reflexivity].
      assert (Hin : In (MState (i + n + 4) [("year"%string, (i + n, i + n + 4))])
                       (mt false s patterns.year_tail (shift (init i) n)))
        by (apply in_year_tail; auto).
      rewrite E in Hin. destruct Hin.
    - intros T. destruct (mt false s patterns.year_tail (shift (init i) n)) as [|y l] eqn:E;
        [reflexivity|].
      assert (Hin : In y (mt false s patterns.year_tail (shift (init i) n)))
        by (rewrite E; now left).
      apply in_year_tail in Hin as [T' _]. cbn [pos shift init] in T'. congruence. }
  pose proof (flat_map_downto_hd
                (fun n => mt false s patterns.year_tail (shift (init i) n)) 1 m) as H.
  destruct (flat_map _ (downto 1 m)) as [|y l].
  - intros k Hk T C.
    assert (Hn : k - i <= m) by (apply Hreach; now replace (i + (k - i)) with k by lia).
    specialize (H (k - i) ltac:(lia)). apply Htail in H.
    replace (i + (k - i)) with k in H by lia. congruence.
  - destruct H as [n [Hn [[l' Hy] Hafter]]].
    assert (Hin : In y (mt false s patterns.year_tail (shift (init i) n)))
      by (rewrite Hy; now left).
    apply in_year_tail in Hin as [T ->]. cbn [pos shift init caps] in *.
    exists (i + n). split; [lia|]. split; [exact T|].
    split; [apply Hreach; lia|]. split; [|reflexivity].
    intros k' Hk' T' C.
    assert (Hn' : k' - i <= m) by (apply Hreach; now replace (i + (k' - i)) with k' by lia).
    specialize (Hafter (k' - i) ltac:(lia)). apply Htail in Hafter.
    replace (i + (k' - i)) with k' in Hafter by lia. congruence.
Qed.

End YearMatch.

Section YearTokens.

Variable s : str.

Lemma year_value_range (k : nat) (y : Z) :
  year_value s k = Some y -> (1921 <= y <= 2159)%Z.
Proof.
  rewrite year_value_int_eq.
  destruct (py_int (substr s k (k + 4))) as [v|]; [|discriminate].
  destruct ((1921 <=? v)%Z && (v <=? 2159)%Z) eqn:R; [|discriminate].
  intros [= <-]. apply andb_true_iff in R as [R1 R2].
  apply Z.leb_le in R1, R2. lia.
Qed.

Lemma year_value_int (k : nat) (y : Z) :
  year_value s k = Some y -> py_int (substr s k (k + 4)) = Some y.
Proof.
  rewrite year_value_int_eq.
  destruct (py_int (substr s k (k + 4))) as [v|]; [|discriminate].
  destruct ((1921 <=? v)%Z && (v <=? 2159)%Z); [|discriminate].
  now intros [= <-].
Qed.

(** A year is written with four digits. *)
Lemma year_value_digits (k : nat) (y : Z) :
  year_value s k = Some y -> digits4_at s k = true.
Proof.
  rewrite year_value_int_eq. unfold digits4_at, digit_at. rewrite substr4.
  rewrite (skipn_nth s k), (skipn_nth s (S k)), (skipn_nth s (S (S k))),
    (skipn_nth s (S (S (S k)))).
  replace (k + 1) with (S k) by lia.
  replace (k + 2) with (S (S k)) by lia.
  replace (k + 3) with (S (S (S k))) by lia.
  destruct (nth_error s k) as [x0|]; [|discriminate].
  destruct (nth_error s (S k)) as [x1|];
    [destruct (nth_error s (S (S k))) as [x2|];
     [destruct (nth_error s (S (S (S k)))) as [x3|]|]|];
    unfold py_int, is_digit, between;
    cbn [firstn forallb digits_value andb]; rewrite ?firstn_O;
    cbn [firstn forallb digits_value andb];
    set (n0 := code x0) in *; try set (n1 := code x1) in *;
    try set (n2 := code x2) in *; try set (n3 := code x3) in *;
    match goal with
    | |- match (if ?d then _ else _) with _ => _ end = _ -> _ => destruct d eqn:D
    end; try discriminate;
    match goal with
    | |- (if ?r then _ else _) = _ -> _ => destruct r eqn:R
    end; try discriminate; intros _;
    first [bool_to_prop; lia | exfalso; bool_to_prop; lia].
Qed.

Lemma digit_word (j : nat) : digit_at s j = true -> word_at s j = true.
Proof.
  unfold digit_at, word_at. destruct (nth_error s j) as [c|]; [|discriminate].
  unfold is_word, is_digit. intros ->. reflexivity.
Qed.

Lemma digits4_word (k j : nat) :
  digits4_at s k = true -> k <= j < k + 4 -> word_at s j = true.
Proof.
  unfold digits4_at. rewrite !andb_true_iff. intros [[[H0 H1] H2] H3] Hj.
  apply digit_word.
  assert (Hc : j = k \/ j = k + 1 \/ j = k + 2 \/ j = k + 3) by lia.
  destruct Hc as [->|[->|[->| ->]]]; assumption.
Qed.

Lemma year_token_digits (k : nat) :
  year_token s k = true -> digits4_at s k = true.
Proof.
  unfold year_token. rewrite !andb_true_iff. intros [[_ H] _].
  destruct (year_value s k) as [y|] eqn:E; [|discriminate].
  exact (year_value_digits k y E).
Qed.

Lemma word_at_lt (j : nat) : word_at s j = true -> j < length s.
Proof.
  unfold word_at. destruct (nth_error s j) eqn:E; [|discriminate].
  intros _. apply nth_error_Some. congruence.
Qed.

Lemma year_token_len (k : nat) : year_token s k = true -> k + 4 <= length s.
Proof.
  intros H. apply year_token_digits in H.
  assert (W := digits4_word k (k + 3) H ltac:(lia)).
  apply word_at_lt in W. lia.
Qed.

(** Two year tokens are at least five characters apart. *)
Lemma year_tokens_apart (k k' : nat) :
  year_token s k = true -> year_token s k' = true -> k < k' -> k + 5 <= k'.
Proof.
  intros T T' Hlt.
  destruct (le_lt_dec (k + 5) k') as [|Hclose]; [assumption|]. exfalso.
  assert (D := year_token_digits k T). assert (D' := year_token_digits k' T').
  unfold year_token in T'. rewrite !andb_true_iff in T'. destruct T' as [[B _] _].
  destruct k' as [|j]; [lia|]. cbn [boundary] in B.
  rewrite (digits4_word k j D) in B by lia.
  rewrite (digits4_word (S j) (S j) D') in B by lia.
  discriminate B.
Qed.

Lemma char_ok_notsep (j : nat) :
  char_ok false s (NoneOf [IChr sep]) j = true <->
  j < length s /\ sep_at s j = false.
Proof.
  unfold char_ok, sep_at. destruct (nth_error s j) as [c|] eqn:E.
  - assert (j < length s) by (apply nth_error_Some; congruence).
    cbn [in_cset existsb in_item]. unfold is_sep.
    rewrite orb_false_r, negb_true_iff. tauto.
  - apply nth_error_None in E. split; [discriminate | lia].
Qed.

Lemma year_at_iff (k : nat) :
  year_at s k = true <->
  exists j, k = S j /\ sep_at s j = false /\ year_token s k = true.
Proof.
  unfold year_at. destruct k as [|j].
  - split; [discriminate | intros [j [H _]]; discriminate].
  - rewrite andb_true_iff, negb_true_iff. split.
    + intros [H1 H2]. exists j. auto.
    + intros [j' [[= <-] [H1 H2]]]. auto.
Qed.

(** A year token that can be reached from a start before it is one that the
    specification accepts. *)
Lemma reach_year_at (i k : nat) :
  i < k -> reach s i k -> year_token s k = true -> year_at s k = true.
Proof.
  intros Hik R T. apply year_at_iff. destruct k as [|j]; [lia|].
  exists j. split; [reflexivity|]. split; [|exact T].
  specialize (R j ltac:(lia)). now apply char_ok_notsep in R.
Qed.

Lemma year_at_reach (k : nat) :
  year_at s k = true -> 0 < k /\ reach s (k - 1) k /\ year_token s k = true.
Proof.
  intros H. apply year_at_iff in H as [j [-> [Hsep T]]].
  split; [lia|]. split; [|exact T].
  intros j' Hj'. assert (j' = j) by lia. subst j'.
  apply char_ok_notsep. split; [|exact Hsep].
  apply year_token_len in T. lia.
Qed.

End YearTokens.

Section YearIter.

Variable s : str.

Lemma year_search_some (e : nat) (mo : match_obj) :
  search_from patterns.year s false e = Some mo ->
  exists i k, e <= i /\ i < k /\ year_at s k = true /\ mo = year_match i k.
Proof.
  rewrite search_from_seq. intros H.
  apply first_match_seq_some in H as [i [Hi [Hm _]]].
  pose proof (year_match_at s i) as Y. rewrite Hm in Y.
  destruct Y as [k [Hik [T [R [_ ->]]]]].
  exists i, k. split; [lia|]. split; [exact Hik|].
  split; [exact (reach_year_at s i k Hik R T) | reflexivity].
Qed.

Lemma year_search_exists (e k : nat) :
  year_at s k = true -> e < k ->
  exists mo, search_from patterns.year s false e = Some mo.
Proof.
  intros H Hek. apply year_at_reach in H as [Hk [R T]].
  destruct (search_from patterns.year s false e) as [mo|] eqn:E;
    [now exists mo|]. exfalso.
  rewrite search_from_seq in E.
  assert (Hlen := year_token_len s k T).
  assert (Hm : match_at patterns.year s false (k - 1) = None).
  { apply (proj1 (first_match_seq_none patterns.year s e (S (length s - e))) E).
    lia. }
  pose proof (year_match_at s (k - 1)) as Y. rewrite Hm in Y.
  apply (Y k); [lia | exact T | exact R].
Qed.

Lemma finditer_year_none (fuel e : nat) :
  (forall k, e < k -> year_at s k = false) ->
  finditer_from patterns.year s fuel false e = [].
Proof.
  intros Hno. destruct fuel as [|fuel]; [reflexivity|]. cbn [finditer_from].
  destruct (search_from patterns.year s false e) as [mo|] eqn:E; [|reflexivity].
  apply year_search_some in E as [i [k [Hi [Hik [Hk _]]]]].
  rewrite Hno in Hk by lia. discriminate.
Qed.

Lemma last_match_cons (m : match_obj) (l : list match_obj) :
  last_match (m :: l)
  = match last_match l with
    | Some x => Some x
    | None => Some m
    end.
Proof.
  unfold last_match. simpl. destruct (rev l) as [|x r]; reflexivity.
Qed.

(** The last match of the year pattern holds the right-most year token. *)
Lemma finditer_year_last (kmax : nat) :
  year_at s kmax = true ->
  (forall k, year_at s k = true -> k <= kmax) ->
  forall fuel e,
    e < kmax -> kmax - e <= fuel ->
    exists i, last_match (finditer_from patterns.year s fuel false e)
              = Some (year_match i kmax).
Proof.
  intros Hmax Hall. induction fuel as [|fuel IH]; intros e He Hfuel; [lia|].
  cbn [finditer_from].
  destruct (year_search_exists e kmax Hmax He) as [mo E]. rewrite E.
  apply year_search_some in E as [i [k [Hi [Hik [Hk ->]]]]].
  assert (Hle := Hall k Hk).
  unfold m_end, m_start, year_match. cbn [m_state pos].
  replace (k + 4 =? i) with false by (symmetry; apply Nat.eqb_neq; lia).
  fold (year_match i k). rewrite last_match_cons.
  destruct (Nat.eq_dec k kmax) as [->|Hne].
  - rewrite finditer_year_none.
    + exists i. reflexivity.
    + intros k' Hk'. destruct (year_at s k') eqn:E'; [|reflexivity].
      specialize (Hall k' E'). lia.
  - assert (Hapart : k + 5 <= kmax).
    { apply (year_tokens_apart s k kmax).
      - now apply year_at_reach in Hk as [_ [_ T]].
      - now apply year_at_reach in Hmax as [_ [_ T]].
      - lia. }
    destruct (IH (k + 4) ltac:(lia) ltac:(lia)) as [i' Hi'].
    rewrite Hi'. now exists i'.
Qed.

Lemma rightmost_spec (n : nat) :
  match rightmost s n with
  | Some k => k < n /\ year_at s k = true
              /\ forall k', k' < n -> year_at s k' = true -> k' <= k
  | None => forall k', k' < n -> year_at s k' = false
  end.
Proof.
  induction n as [|n IH]; cbn [rightmost].
  - intros k' Hk'. lia.
  - destruct (year_at s n) eqn:E.
    + split; [lia|]. split; [exact E|]. intros k' Hk' _. lia.
    + destruct (rightmost s n) as [k|].
      * destruct IH as [Hk [Hy Hmax]]. split; [lia|]. split; [exact Hy|].
        intros k' Hk' Hy'. destruct (Nat.eq_dec k' n) as [->|Hne];
          [congruence | apply Hmax; [lia | exact Hy']].
      * intros k' Hk'. destruct (Nat.eq_dec k' n) as [->|Hne];
          [exact E | apply IH; lia].
Qed.

Lemma year_at_lt (k : nat) : year_at s k = true -> k < length s.
Proof.
  intros H. apply year_at_reach in H as [_ [_ T]].
  apply year_token_len in T. lia.
Qed.

End YearIter.

(** C1: the year is the number, between 1921 and 2159, of the right-most year
    token of the folder and file name, a token being a standalone number that
    is neither at the start of the string nor right after a separator; when
    there is no such token there is no year. *)
Theorem get_year_rightmost (source_path : str) :
  match get_year source_path with
  | Some y =>
      (1921 <= y <= 2159)%Z
      /\ exists k, year_at (path_text source_path) k = true
                   /\ year_value (path_text source_path) k = Some y
                   /\ forall k', year_at (path_text source_path) k' = true ->
                                 k' <= k
  | None => forall k, year_at (path_text source_path) k = false
  end.
Proof.
  rewrite <- !folder_file_text.
  unfold get_year. set (s := folder_file source_path).
  pose proof (rightmost_spec s (length s)) as R.
  destruct (rightmost s (length s)) as [kmax|].
  - destruct R as [Hlt [Hy Hmax]].
    assert (Hall : forall k, year_at s k = true -> k <= kmax).
    { intros k Hk. apply Hmax; [now apply year_at_lt | exact Hk]. }
    assert (H0 : 0 < kmax) by (now apply year_at_reach in Hy as [H0 _]).
    destruct (finditer_year_last s kmax Hy Hall (2 * S (length s)) 0 H0
                ltac:(lia)) as [i Hi].
    unfold finditer. rewrite Hi. unfold group, year_match. cbn [m_state caps lookup_cap].
    rewrite String.eqb_refl.
    assert (T : year_token s kmax = true) by (now apply year_at_reach in Hy as [_ [_ T]]).
    unfold year_token in T. rewrite !andb_true_iff in T. destruct T as [[_ V] _].
    destruct (year_value s kmax) as [y|] eqn:E; [|discriminate].
    rewrite (year_value_int s kmax y E). split.
    + exact (year_value_range s kmax y E).
    + exists kmax. auto.
  - assert (E : finditer patterns.year s = []).
    { unfold finditer. apply finditer_year_none. intros k _.
      destruct (year_at s k) eqn:Hk; [|reflexivity].
      rewrite R in Hk; [discriminate | now apply year_at_lt]. }
    rewrite E. cbn. intros k.
    destruct (year_at s k) eqn:Hk; [|reflexivity].
    rewrite R in Hk; [discriminate | now apply year_at_lt].
Qed.

(** ** Prefix stripping (get_title) *)

Lemma strip_tag_prefixes_skip (l : list str) (title : str) :
  (forall q, In q l -> startswith (str_lower title) (str_lower q) = false) ->
  strip_tag_prefixes l title = title.
Proof.
  unfold strip_tag_prefixes. induction l as [|q l IH]; intros Hno; simpl.
  - reflexivity.
  - unfold strip_prefix at 2. rewrite (Hno q) by now left.
    apply IH. intros q' Hq'. apply Hno. now right.
Qed.

(** C4, as amended: the prefixes are tried in the configured order; the first
    one that matches the start of the title, whatever the case, is removed,
    and the prefixes configured after it are then tried on what remains. *)
Theorem strip_tag_prefixes_first_match (l1 l2 : list str) (p title : str) :
  (forall q, In q l1 -> startswith (str_lower title) (str_lower q) = false) ->
  startswith (str_lower title) (str_lower p) = true ->
  strip_tag_prefixes (l1 ++ p :: l2) title
  = strip_tag_prefixes l2 (skipn (length p) title).
Proof.
  intros Hno Hp. unfold strip_tag_prefixes.
  rewrite fold_left_app. fold (strip_tag_prefixes l1 title).
  rewrite (strip_tag_prefixes_skip l1 title Hno). simpl.
  unfold strip_prefix at 2. now rewrite Hp.
Qed.

Lemma strip_tag_prefixes_first_match_witness :
  strip_tag_prefixes ([L "x-"] ++ L "A-" :: [L "b-"]) (L "a-b-Movie") = L "Movie".
Proof.
  rewrite strip_tag_prefixes_first_match.
  - reflexivity.
  - intros q [<- | []]. reflexivity.
  - reflexivity.
Defined.

(** C4, as stated, fails: a second configured prefix is removed after the
    first one that matched. *)
Lemma strip_tag_prefixes_strips_more_than_one :
  ~ (forall (l1 l2 : list str) (p title : str),
       (forall q, In q l1 -> startswith (str_lower title) (str_lower q) = false) ->
       startswith (str_lower title) (str_lower p) = true ->
       strip_tag_prefixes (l1 ++ p :: l2) title = skipn (length p) title).
Proof.
  intros H.
  specialize (H [] [L "b-"] (L "a-") (L "a-b-Movie")).
  assert (E : strip_tag_prefixes ([] ++ L "a-" :: [L "b-"]) (L "a-b-Movie")
              = skipn (length (L "a-")) (L "a-b-Movie")).
  { apply H; [intros q [] | reflexivity]. }
  vm_compute in E. discriminate E.
Qed.

(** ** Truncation at the year (get_title) *)

(** C9: when no year is found for the path, [get_title] cuts the title that
    the earlier steps have made at the first occurrence of the text "None"
    and goes on with what precedes it; a title without that text goes on as
    it is. *)
Theorem get_title_without_year (cfg : config)
    (strip_extra_whitespace : str -> str) (source_path : str) :
  get_year source_path = None ->
  (exists a b,
      title_before_year cfg source_path = a ++ L "None" ++ b
      /\ (forall a' b', title_before_year cfg source_path = a' ++ L "None" ++ b' ->
                        length a <= length a')
      /\ get_title cfg strip_extra_whitespace source_path
         = title_after_year cfg strip_extra_whitespace a)
  \/ ((forall a b, title_before_year cfg source_path <> a ++ L "None" ++ b)
      /\ get_title cfg strip_extra_whitespace source_path
         = title_after_year cfg strip_extra_whitespace
             (title_before_year cfg source_path)).
Proof.
  intros Hy.
  assert (E : get_title cfg strip_extra_whitespace source_path
              = title_after_year cfg strip_extra_whitespace
                  (split_head (L "None") (title_before_year cfg source_path))).
  { unfold get_title, title_after_year, title_before_year, split_on_year.
    rewrite Hy. reflexivity. }
  rewrite E. unfold split_head.
  destruct (find (L "None") (title_before_year cfg source_path)) as [i|] eqn:F.
  - left. destruct (find_some _ _ _ F) as [b [Hb Hmin]].
    exists (firstn i (title_before_year cfg source_path)), b.
    split; [exact Hb|]. split; [|reflexivity].
    intros a' b' Ht. rewrite length_firstn. specialize (Hmin a' b' Ht). lia.
  - right. split; [|reflexivity].
    intros a b Ht. exact (find_none _ _ F a b Ht).
Qed.

Lemma get_title_without_year_witness :
  get_year (L "films/And Then There Were None.mkv") = None
  /\ ((exists a b,
         title_before_year (Config [] [] [])
           (L "films/And Then There Were None.mkv") = a ++ L "None" ++ b
         /\ (forall a' b',
               title_before_year (Config [] [] [])
                 (L "films/And Then There Were None.mkv") = a' ++ L "None" ++ b' ->
               length a <= length a')
         /\ get_title (Config [] [] []) (fun title => title)
              (L "films/And Then There Were None.mkv")
            = title_after_year (Config [] [] []) (fun title => title) a)
      \/ ((forall a b,
              title_before_year (Config [] [] [])
                (L "films/And Then There Were None.mkv") <> a ++ L "None" ++ b)
          /\ get_title (Config [] [] []) (fun title => title)
               (L "films/And Then There Were None.mkv")
             = title_after_year (Config [] [] []) (fun title => title)
                 (title_before_year (Config [] [] [])
                    (L "films/And Then There Were None.mkv")))).
Proof.
  split; [reflexivity|].
  exact (get_title_without_year (Config [] [] []) (fun title => title)
           (L "films/And Then There Were None.mkv") eq_refl).
Defined.

(** ** The edition resolver *)


(** A key that is not an alternation is found between two word boundaries. *)
Lemma delimited_match (key : regex) (s : str) (result : match_obj) :
  delimit key = Seq Bnd (Seq key Bnd) ->
  search (Pattern (delimit key) true) s = Some result ->
  boundary s (m_start result) = true /\ boundary s (m_end result) = true.
Proof.
  intros Hd Hs. apply search_in in Hs as [_ Hin]. cbn [p_ic p_re] in Hin.
  rewrite Hd in Hin. apply in_mt_delimited in Hin as [Hb [_ Hb']].
  split; [exact Hb | exact Hb'].
Qed.












(** ** The article (get_title) *)

Lemma match_at_Lit ic (w : str) (s : str) (i : nat) :
  match_at (Pattern (Lit w) ic) s false i
  = if lit_at ic s i w then Some (Match i (MState (i + length w) [])) else None.
Proof.
  unfold match_at. cbn [p_ic p_re]. rewrite mt_Lit. cbn [pos init].
  destruct (lit_at ic s i w); reflexivity.
Qed.

Lemma firstn_skipn_0 (s : str) (i : nat) : substr s 0 i = firstn i s.
Proof. unfold substr. now rewrite Nat.sub_0_r. Qed.

(** C3, as amended: a ", the", in any case, is put back wherever it stands in
    the title, at its end or inside it: when it occurs once it is cut out and
    "The " is put in front of the title; a title without it is left as it
    is. *)
Theorem restore_article_anywhere (title : str) :
  ((forall i, lit_at true title i (L ", the") = false) ->
   restore_article title = title)
  /\ (forall i,
        lit_at true title i (L ", the") = true ->
        (forall j, lit_at true title j (L ", the") = true -> j = i) ->
        restore_article title
        = L "The " ++ firstn i title ++ skipn (i + 5) title).
Proof.
  unfold restore_article. split.
  - intros Hno.
    assert (E : search comma_the title = None).
    { rewrite search_seq. apply first_match_seq_none. intros i _.
      unfold comma_the. rewrite match_at_Lit. now rewrite Hno. }
    now rewrite E.
  - intros i Hi Honly.
    assert (Hlen : i + 5 <= length title) by (apply lit_at_len in Hi; simpl in Hi; lia).
    assert (Hat : forall j, match_at comma_the title false j
                            = if j =? i then Some (Match i (MState (i + 5) []))
                              else None).
    { intros j. unfold comma_the. rewrite match_at_Lit.
      destruct (Nat.eqb_spec j i) as [->|Hne].
      - now rewrite Hi.
      - destruct (lit_at true title j (L ", the")) eqn:E; [|reflexivity].
        now apply Honly in E. }
    assert (E1 : search_from comma_the title false 0
                 = Some (Match i (MState (i + 5) []))).
    { rewrite search_from_seq. apply first_match_seq_some. exists i.
      split; [lia|]. split.
      - now rewrite Hat, Nat.eqb_refl.
      - intros j Hj. rewrite Hat.
        destruct (Nat.eqb_spec j i); [lia | reflexivity]. }
    assert (E2 : search_from comma_the title false (i + 5) = None).
    { rewrite search_from_seq. apply first_match_seq_none. intros j Hj.
      rewrite Hat. destruct (Nat.eqb_spec j i); [lia | reflexivity]. }
    unfold search. rewrite E1. f_equal.
    unfold sub, finditer. cbn [finditer_from Nat.mul Nat.add].
    rewrite E1. unfold m_end, m_start. cbn [m_state pos].
    replace (i + 5 =? i) with false by (symmetry; apply Nat.eqb_neq; lia).
    destruct (length title + S (length title + 0)) as [|fuel]; cbn [finditer_from];
      rewrite ?E2; cbn [sub_from expand flat_map app m_start m_end m_state pos];
      unfold m_end; cbn [m_state pos]; now rewrite firstn_skipn_0.
Qed.

Lemma restore_article_anywhere_witness :
  restore_article (L "Matrix, The (1999)") = L "The Matrix (1999)".
Proof.
  rewrite (proj2 (restore_article_anywhere (L "Matrix, The (1999)")) 6).
  - reflexivity.
  - reflexivity.
  - intros j Hj.
    do 18 (destruct j as [|j]; [first [reflexivity | discriminate Hj]|]).
    apply lit_at_len in Hj. simpl in Hj. lia.
Defined.

(** C3, as stated, fails: a ", The" inside the title, here before the year,
    is taken out as well. *)
Lemma restore_article_not_only_suffix :
  ~ (forall title : str,
       lit_at true title (length title - 5) (L ", the") = false ->
       restore_article title = title).
Proof.
  intros H. specialize (H (L "Matrix, The (1999)") eq_refl).
  vm_compute in H. discriminate H.
Qed.

(** ** The safe transfer engine *)

Import transfer.

(** C7: when the destination exists and is not smaller than the source,
    without force-overwrite and without the upgrade flag, the transfer is
    refused and the file system is left as it was. *)
Theorem safe_move_rejects (pol : policy) (fail_at : option nat)
    (fs : gmap string str) (req : request) (sdata ddata : str) :
  fs !! source req = Some sdata ->
  fs !! destination req = Some ddata ->
  length sdata <= length ddata ->
  force_overwrite pol = false ->
  allowUpgrade req = false ->
  safe_move pol fail_at fs req = (Outcome false, fs).
Proof.
  intros Hs Hd Hsize Hforce Hup. unfold safe_move. rewrite Hs.
  destruct (String.eqb (source req) (destination req)); [reflexivity|].
  rewrite Hd. unfold may_replace. rewrite Hforce, Hup. cbn [andb].
  replace (length ddata <? length sdata) with false
    by (symmetry; apply Nat.ltb_ge; lia).
  reflexivity.
Qed.

Lemma safe_move_rejects_witness :
  safe_move (Policy false false false true) None
    (<["new.mkv"%string := L "12345"]> {["old.mkv"%string := L "12345"]})
    (Request "new.mkv" "old.mkv" false)
  = (Outcome false,
     <["new.mkv"%string := L "12345"]> {["old.mkv"%string := L "12345"]}).
Proof.
  apply (safe_move_rejects _ _ _ _ (L "12345") (L "12345")).
  - reflexivity.
  - reflexivity.
  - simpl. lia.
  - reflexivity.
  - reflexivity.
Defined.

Section StagedCopy.

Variables (src dst : string) (data : str) (n : nat) (fs : gmap string str).

Hypothesis Hn : n <= length data.



End StagedCopy.







(** ** The examples of the specification *)

Definition rogue_one : str :=
  L "films/Rogue.One.A.Star.Wars.Story.2016.PROPER.1080p.BluRay.DTS.x264-DON.mkv".

Example rogue_one_title :
  get_title (Config [] [] []) (fun title => title) rogue_one
  = Some (L "Rogue One A Star Wars Story").
Proof. vm_compute. reflexivity. Qed.

Example rogue_one_attributes :
  get_year rogue_one = Some 2016%Z
  /\ get_resolution rogue_one = Some (L "1080p")
  /\ get_media rogue_one = BLURAY
  /\ is_proper rogue_one = true
  /\ is_hdr rogue_one = false
  /\ get_part rogue_one = None.
Proof. vm_compute. repeat split. Qed.

Example year_right_most :
  get_year (L "films/2001 A Space Odyssey 1968.mkv") = Some 1968%Z.
Proof. vm_compute. reflexivity. Qed.

Example year_not_resolution :
  get_year (L "films/Movie 1920x1080 2160p.mkv") = None.
Proof. vm_compute. reflexivity. Qed.

Example resolution_4k :
  get_resolution (L "films/Movie.4K.mkv") = Some (L "2160p")
  /\ get_resolution (L "films/Movie.1080.mkv") = Some (L "1080p").
Proof. vm_compute. split; reflexivity. Qed.

Example part_numbers :
  get_part (L "films/Movie part 12.mkv") = Some (L "12")
  /\ get_part (L "films/Movie part xiv.mkv") = Some (L "XIV")
  /\ get_part (L "films/Movie part.mkv") = Some (L "M").
Proof. vm_compute. repeat split. Qed.

Example move_to_free_destination :
  transfer.safe_move (transfer.Policy false false false true) None
    {["new.mkv"%string := L "12345"]}
    (transfer.Request "new.mkv" "films/new.mkv" false)
  = (transfer.Outcome true, {["films/new.mkv"%string := L "12345"]}).
Proof. vm_compute. reflexivity. Qed.

Example safe_copy_succeeds :
  transfer.safe_move (transfer.Policy false true false true) None
    {["new.mkv"%string := L "12345"]}
    (transfer.Request "new.mkv" "films/new.mkv" false)
  = (transfer.Outcome true, {["films/new.mkv"%string := L "12345"]}).
Proof. vm_compute. reflexivity. Qed.

Example dry_run_changes_nothing :
  transfer.safe_move (transfer.Policy false false true true) None
    {["new.mkv"%string := L "12345"]}
    (transfer.Request "new.mkv" "films/new.mkv" false)
  = (transfer.Outcome true, {["new.mkv"%string := L "12345"]}).
Proof. vm_compute. reflexivity. Qed.

Example title_cut_at_none :
  get_title (Config [] [] []) (fun title => title)
    (L "films/And Then There Were None.mkv")
  = Some (L "And Then There Were").
Proof. vm_compute. reflexivity. Qed.

(** A keep-period string is read as a template when it is put back: an
    octal escape brings in the character it stands for, and a bad escape is
    an error. *)
Example keep_period_octal :
  get_title (Config [] [L "x\056"] []) (fun title => title) (L "films/x\056.mkv")
  = Some (L "x.").
Proof. vm_compute. reflexivity. Qed.

Example keep_period_bad_escape :
  get_title (Config [] [L "\d"] []) (fun title => title) (L "films/x.mkv") = None.
Proof. vm_compute. reflexivity. Qed.

Example accented_letters_are_word_characters :
  get_year (L "films/" ++ ascii_of_nat 233 :: L "2001.mkv") = None
  /\ get_media (L "films/" ++ ascii_of_nat 233 :: L "dvd.mkv") = UNKNOWN
  /\ strip_tag_prefixes [[ascii_of_nat 233]; [ascii_of_nat 201]]
       (ascii_of_nat 201 :: ascii_of_nat 201 :: L "x") = L "x".
Proof. vm_compute. repeat split. Qed.

(** * Further properties of the parser *)

(** ** HDR *)

(** X1: the file is HDR exactly when the standalone word "hdr", in any case,
    stands somewhere in the folder and file name. *)
Theorem is_hdr_iff (source_path : str) :
  is_hdr source_path = true <->
  exists k, token_at (path_text source_path) k (L "hdr") = true.
Proof.
  rewrite <- !folder_file_text.
  unfold is_hdr. set (s := folder_file source_path).
  assert (Hmt : forall i,
             mt true s (p_re patterns.hdr) (init i)
             = if token_at s i (L "hdr")
               then [MState (i + 3) [("hdr"%string, (i, i + 3))]] else []).
  { intros i. unfold patterns.hdr. cbn [p_re]. rewrite mt_token. reflexivity. }
  split.
  - intros H. destruct (search patterns.hdr s) as [m|] eqn:E; [|discriminate].
    apply search_in in E as [_ Hin]. cbn [p_ic patterns.hdr] in Hin.
    change (Seq Bnd _) with (p_re patterns.hdr) in Hin. rewrite Hmt in Hin.
    exists (m_start m).
    destruct (token_at s (m_start m) (L "hdr")); [reflexivity | destruct Hin].
  - intros [k Hk].
    assert (Hlen : k + 3 <= length s).
    { unfold token_at in Hk. rewrite !andb_true_iff in Hk.
      destruct Hk as [[_ Hl] _]. apply lit_at_len in Hl. simpl in Hl. lia. }
    destruct (proj2 (search_some_iff patterns.hdr s)) as [m Hm].
    + exists k. split; [lia|]. cbn [p_ic patterns.hdr].
      change (Seq Bnd _) with (p_re patterns.hdr). rewrite Hmt, Hk. discriminate.
    + rewrite Hm. apply search_in in Hm as [_ Hin].
      cbn [p_ic patterns.hdr] in Hin.
      change (Seq Bnd _) with (p_re patterns.hdr) in Hin. rewrite Hmt in Hin.
      destruct (token_at s (m_start m) (L "hdr")) eqn:T; [|destruct Hin].
      destruct Hin as [Hst|[]].
      apply (truthy_span s m "hdr" (m_start m) (m_start m + 3)).
      * rewrite <- Hst. reflexivity.
      * lia.
      * unfold token_at in T. rewrite !andb_true_iff in T.
        destruct T as [[_ Hl] _]. apply lit_at_len in Hl. simpl in Hl. lia.
Qed.

Lemma is_hdr_iff_witness :
  is_hdr (L "films/Movie.2018.HDR.2160p.mkv") = true.
Proof. apply is_hdr_iff. exists 17. reflexivity. Defined.

(** ** Media *)

Lemma token_at_len (s : str) (k : nat) (c : ascii) (w : str) :
  token_at s k (c :: w) = true -> k + length (c :: w) <= length s.
Proof.
  unfold token_at. rewrite !andb_true_iff. intros [[_ H] _].
  now apply lit_at_len in H.
Qed.

Lemma media_search_none (s : str) :
  search patterns.media s = None <-> forall k m, media_at s k m = false.
Proof.
  rewrite search_seq, first_match_seq_none. split.
  - intros H k m. destruct (media_at s k m) eqn:E; [|reflexivity]. exfalso.
    apply media_at_iff in E as [w [Hw Ht]].
    assert (Hk : k < length s).
    { destruct w as [|c w]; [destruct (alias_head2 m [] Hw); discriminate|].
      apply token_at_len in Ht. simpl in Ht. lia. }
    specialize (H k ltac:(lia)). unfold match_at in H.
    cbn [p_ic patterns.media] in H.
    change (Seq Bnd _) with (p_re patterns.media) in H.
    assert (Hin : In (MState (k + length w) [(group_name m, (k, k + length w))])
                     (mt true s (p_re patterns.media) (init k)))
      by (apply mt_media_iff; eauto).
    destruct (mt true s (p_re patterns.media) (init k)); [destruct Hin | discriminate].
  - intros H i _. unfold match_at. cbn [p_ic patterns.media].
    change (Seq Bnd _) with (p_re patterns.media).
    destruct (mt true s (p_re patterns.media) (init i)) as [|st l] eqn:E;
      [reflexivity|].
    assert (Hin : In st (mt true s (p_re patterns.media) (init i)))
      by (rewrite E; now left).
    apply mt_media_iff in Hin as [m [w [Hw [Ht _]]]].
    assert (media_at s i m = true) by (apply media_at_iff; eauto).
    rewrite H in H0. discriminate.
Qed.

(** X2: the media is unknown exactly when the folder and file name holds no
    media token at all. *)
Theorem get_media_unknown_iff (source_path : str) :
  get_media source_path = UNKNOWN <->
  forall k m, media_at (path_text source_path) k m = false.
Proof.
  rewrite <- !folder_file_text.
  rewrite <- media_search_none. set (s := folder_file source_path). split.
  - intros H. destruct (search patterns.media s) as [mo|] eqn:E; [|reflexivity].
    exfalso. pose proof E as E'. apply search_in in E' as [_ Hin].
    apply mt_media_iff in Hin as [m [w [Hw [Ht Hst]]]].
    assert (Hm : m <> UNKNOWN) by (intros ->; destruct Hw).
    destruct w as [|c w]; [destruct (alias_head2 m [] Hw); discriminate|].
    apply token_at_len in Ht.
    rewrite (get_media_of_match source_path mo m (m_start mo)
               (m_start mo + length (c :: w))) in H.
    + now apply Hm.
    + exact E.
    + now rewrite Hst.
    + simpl. lia.
    + exact Ht.
    + exact Hm.
  - intros E. unfold get_media. fold s. now rewrite E.
Qed.

(** ** The part number *)

Section PartAlways.

Variable s : str.

Lemma in_mt_Seq ic (r1 r2 : regex) (st y : mstate) :
  In y (mt ic s (Seq r1 r2) st) <->
  exists z, In z (mt ic s r1 st) /\ In y (mt ic s r2 z).
Proof. rewrite mt_Seq. apply in_flat_map. Qed.

(** A loop that may run no time at all can stop where it starts. *)
Lemma in_mt_Rep0 ic (hi : option nat) (greedy : bool) (cs : cset) (st : mstate) :
  In st (mt ic s (Rep 0 hi greedy (Chr cs)) st).
Proof.
  rewrite mt_Rep_Chr. apply in_map_iff. exists 0. split; [apply shift_0|].
  apply in_loop_order. lia.
Qed.

Lemma roman_digit_matches (g : string) (a b : regex) (f u : ascii)
    (st : mstate) :
  exists y, In y (mt true s
                    (Grp g (Alt a (Alt b (Seq (Opt (patterns.C f))
                                              (Upto 3 (patterns.C u)))))) st)
            /\ pos y = pos st.
Proof.
  exists (close_group g (pos st) st). split; [|reflexivity].
  apply in_mt_Grp. exists st. split; [|reflexivity].
  rewrite !mt_Alt, !in_app_iff. right. right.
  apply in_mt_Seq. exists st. split; apply in_mt_Rep0.
Qed.

(** The numeral of the part pattern matches at any place, if only the empty
    text. *)
Lemma roman_matches (st : mstate) :
  exists y, In y (mt true s patterns.roman st).
Proof.
  unfold patterns.roman.
  destruct (roman_digit_matches "3" (Lit (L "CM")) (Lit (L "CD")) "D"%char "C"%char st)
    as [y3 [H3 P3]].
  destruct (roman_digit_matches "4" (Lit (L "XC")) (Lit (L "XL")) "L"%char "X"%char y3)
    as [y4 [H4 P4]].
  destruct (roman_digit_matches "5" (Lit (L "IX")) (Lit (L "IV")) "V"%char "I"%char y4)
    as [y5 [H5 P5]].
  exists y5. apply in_mt_Seq. exists st. split; [apply in_mt_Rep0|].
  apply in_mt_Seq. exists y3. split; [exact H3|].
  apply in_mt_Seq. exists y4. split; [exact H4 | exact H5].
Qed.

Lemma part_group_matches (st : mstate) :
  exists y, In y (mt true s patterns.part_group st).
Proof.
  destruct (roman_matches st) as [y Hy].
  exists (close_group "part" (pos st) (close_group "2" (pos st) y)).
  unfold patterns.part_group. apply in_mt_Grp. eexists. split; [|reflexivity].
  rewrite mt_Par. apply in_mt_Grp. exists y. split; [|reflexivity].
  rewrite mt_Alt. apply in_app_iff. now right.
Qed.

Lemma part_group_captures (st y : mstate) :
  In y (mt true s patterns.part_group st) ->
  exists span, lookup_cap "part" (caps y) = Some span.
Proof.
  unfold patterns.part_group. intros H.
  apply in_mt_Grp in H as [z [_ ->]]. eexists. reflexivity.
Qed.

Lemma part_matches (k : nat) :
  part_at s k = true -> mt true s (p_re patterns.part) (init k) <> [].
Proof.
  unfold part_at. intros H. apply andb_true_iff in H as [Hb Hl].
  unfold patterns.part. cbn [p_re].
  destruct (part_group_matches (shift (shift (init k) 4) 0)) as [y Hy].
  assert (Hin : In y (mt true s
                        (Seq Bnd (Seq (Lit (L "part"))
                           (Seq (Opt (Chr (OneOf [INotWord])))
                                patterns.part_group))) (init k))).
  { apply in_mt_Seq. exists (init k). split.
    - rewrite mt_Bnd. cbn [pos init]. rewrite Hb. now left.
    - apply in_mt_Seq. exists (shift (init k) 4). split.
      + apply in_mt_Lit. split; [exact Hl | reflexivity].
      + apply in_mt_Seq. exists (shift (shift (init k) 4) 0). split; [|exact Hy].
        rewrite shift_0. apply in_mt_Rep0. }
  intros E. rewrite E in Hin. destruct Hin.
Qed.

Lemma part_captures (i : nat) (y : mstate) :
  In y (mt true s (p_re patterns.part) (init i)) ->
  exists span, lookup_cap "part" (caps y) = Some span.
Proof.
  unfold patterns.part. cbn [p_re]. intros H.
  apply in_mt_Seq in H as [z1 [_ H]]. apply in_mt_Seq in H as [z2 [_ H]].
  apply in_mt_Seq in H as [z3 [_ H]]. exact (part_group_captures z3 y H).
Qed.

End PartAlways.

(** X3: there is no part exactly when no word of the folder and file name
    starts with "part", in any case; a word that does always gives a part,
    if only the empty one. *)
Theorem get_part_none_iff (source_path : str) :
  get_part source_path = None <->
  forall k, part_at (path_text source_path) k = false.
Proof.
  rewrite <- !folder_file_text.
  unfold get_part. set (s := folder_file source_path). split.
  - intros H k. destruct (part_at s k) eqn:E; [|reflexivity]. exfalso.
    assert (Hk : k <= length s).
    { unfold part_at in E. apply andb_true_iff in E as [_ E].
      apply lit_at_lt in E. lia. }
    destruct (proj2 (search_some_iff patterns.part s)) as [m Hm].
    { exists k. split; [exact Hk | exact (part_matches s k E)]. }
    rewrite Hm in H. apply search_in in Hm as [_ Hin].
    apply part_captures in Hin as [[a b] Hcap].
    unfold group in H. rewrite Hcap in H. discriminate.
  - intros H.
    assert (E : search patterns.part s = None).
    { rewrite search_seq. apply first_match_seq_none. intros i _.
      unfold match_at. cbn [p_ic patterns.part].
      change (Seq Bnd _) with (p_re patterns.part).
      now rewrite (part_no_match s i (H i)). }
    now rewrite E.
Qed.

(** ** The resolution *)

Section Resolution.

Variable s : str.

Lemma words_Seq (r1 r2 : regex) (ws1 ws2 : list str) :
  words_regex s r1 ws1 -> words_regex s r2 ws2 ->
  words_regex s (Seq r1 r2) (word_products ws1 ws2).
Proof.
  intros H1 H2 st y. rewrite in_mt_Seq. unfold word_products. split.
  - intros [z [Hz Hy]]. apply H1 in Hz as [w1 [Hw1 [Hl1 ->]]].
    apply H2 in Hy as [w2 [Hw2 [Hl2 ->]]]. cbn [pos shift] in Hl2.
    exists (w1 ++ w2). split; [|split].
    + apply in_flat_map. exists w1. split; [exact Hw1|].
      apply in_map_iff. now exists w2.
    + rewrite lit_at_app, Hl1, Hl2. reflexivity.
    + now rewrite shift_shift, length_app.
  - intros [w [Hw [Hl ->]]]. apply in_flat_map in Hw as [w1 [Hw1 Hw]].
    apply in_map_iff in Hw as [w2 [<- Hw2]].
    rewrite lit_at_app in Hl. apply andb_true_iff in Hl as [Hl1 Hl2].
    exists (shift st (length w1)). split.
    + apply H1. exists w1. auto.
    + apply H2. exists w2. split; [exact Hw2|]. split; [exact Hl2|].
      now rewrite shift_shift, length_app.
Qed.

Lemma words_Par (r : regex) (ws : list str) :
  words_regex s r ws -> words_regex s (Par r) ws.
Proof. intros H st y. rewrite mt_Par. apply H. Qed.

Lemma words_C (c : ascii) : words_regex s (patterns.C c) [[c]].
Proof.
  intros st y. unfold patterns.C. rewrite mt_Chr. split.
  - intros H. exists [c]. split; [now left|]. cbn [lit_at length].
    destruct (char_ok true s (OneOf [IChr c]) (pos st)); [|destruct H].
    destruct H as [<-|[]]. split; [reflexivity|].
    unfold advance, shift. f_equal. lia.
  - intros [w [[<-|[]] [Hl ->]]]. cbn [lit_at length] in *.
    rewrite andb_true_r in Hl. rewrite Hl. left.
    unfold advance, shift. f_equal. lia.
Qed.

Lemma words_Opt_C (c : ascii) : words_regex s (Opt (patterns.C c)) [[]; [c]].
Proof.
  intros st y. unfold Opt, patterns.C. rewrite mt_Rep_Chr, in_map_iff.
  cbn [cap]. rewrite Nat.add_0_l.
  replace (Nat.min (S (length s)) 1) with 1 by (destruct (length s); reflexivity).
  setoid_rewrite in_loop_order. cbn [run]. split.
  - intros [n [<- Hn]].
    destruct (char_ok true s (OneOf [IChr c]) (pos st)) eqn:E.
    + assert (Hc : n = 0 \/ n = 1) by lia. destruct Hc as [-> | ->].
      * exists []. simpl. auto.
      * exists [c]. cbn [lit_at length In]. rewrite E. auto.
    + assert (n = 0) by lia. subst n. exists []. simpl. auto.
  - intros [w [[<-|[<-|[]]] [Hl ->]]].
    + exists 0. split; [reflexivity | lia].
    + cbn [lit_at] in Hl. rewrite andb_true_r in Hl. rewrite Hl.
      exists 1. split; [reflexivity | lia].
Qed.

(** How the resolution pattern matches from [i]. *)
Lemma mt_resolution_iff (i : nat) (st : mstate) :
  In st (mt true s (p_re patterns.resolution) (init i)) <->
  exists w r, In (w, r) resolution_words /\ token_at s i w = true
              /\ st = MState (i + length w)
                        [("resolution"%string, (i, i + length w))].
Proof.
  unfold patterns.resolution. cbn [p_re].
  rewrite in_mt_delimited, in_mt_Grp. cbn [pos init].
  assert (W : words_regex s
                (Alt (Par (Seq (Par (Alt (Lit (L "72"))
                                     (Alt (Lit (L "108")) (Lit (L "216")))))
                               (Seq (patterns.C "0") (Opt (patterns.C "p")))))
                     (Lit (L "4K")))
                (map fst resolution_words)).
  { apply (words_Alt s _ _
             [L "720"; L "720p"; L "1080"; L "1080p"; L "2160"; L "2160p"]
             [L "4K"]); [|apply words_Lit].
    apply words_Par.
    apply (words_Seq _ _ [L "72"; L "108"; L "216"] [L "0"; L "0p"]).
    - apply words_Par.
      apply (words_Alt s _ _ [L "72"] [L "108"; L "216"]); [apply words_Lit|].
      apply (words_Alt s _ _ [L "108"] [L "216"]); apply words_Lit.
    - apply (words_Seq _ _ [L "0"] [[]; L "p"]);
        [apply words_C | apply words_Opt_C]. }
  unfold token_at. split.
  - intros [Hb [[z [Hz ->]] Hb']]. apply W in Hz as [w [Hw [Hl ->]]].
    cbn [pos init shift close_group caps] in *.
    apply in_map_iff in Hw as [[w' r] [<- Hw]]. cbn [fst] in *.
    exists w', r. rewrite Hb, Hl, Hb'. auto.
  - intros [w [r [Hw [Ht ->]]]]. rewrite !andb_true_iff in Ht.
    destruct Ht as [[Hb Hl] Hb']. split; [exact Hb|]. split; [|exact Hb'].
    exists (shift (init i) (length w)). split; [|reflexivity].
    apply W. exists w. split; [|auto].
    apply in_map_iff. now exists (w, r).
Qed.

(** The text that matches a word in any case is that word, up to case. *)
Lemma lit_at_lower (i : nat) (w : str) :
  lit_at true s i w = true ->
  str_lower (substr s i (i + length w)) = str_lower w.
Proof.
  unfold substr. replace (i + length w - i) with (length w) by lia.
  revert i. induction w as [|c w IH]; intros i; [reflexivity|].
  cbn [lit_at length]. unfold char_ok. rewrite (skipn_nth s i).
  destruct (nth_error s i) as [x|]; [|discriminate].
  cbn [in_cset existsb in_item]. rewrite orb_false_r, andb_true_iff.
  intros [Hx Hw]. apply ascii_eqb_eq in Hx.
  cbn [firstn str_lower map]. fold (str_lower (firstn (length w) (skipn (S i) s))).
  fold (str_lower w). now rewrite IH, Hx.
Qed.

End Resolution.

Lemma normal_resolution_lower (a b : str) :
  str_lower a = str_lower b -> normal_resolution a = normal_resolution b.
Proof. unfold normal_resolution. now intros ->. Qed.

Lemma normal_resolution_word (w r : str) :
  In (w, r) resolution_words -> normal_resolution w = r.
Proof.
  unfold resolution_words. intros H.
  repeat (destruct H as [[= <- <-]|H]; [reflexivity|]). destruct H.
Qed.

Lemma resolution_word_head (w r : str) :
  In (w, r) resolution_words -> exists h c w', head2 w = Some h /\ w = c :: w'.
Proof.
  unfold resolution_words. intros H.
  repeat (destruct H as [[= <- <-]|H]; [eexists _, _, _; split; reflexivity|]).
  destruct H.
Qed.

Lemma resolution_heads (w r w' r' : str) :
  In (w, r) resolution_words -> In (w', r') resolution_words ->
  head2 w = head2 w' -> r = r'.
Proof.
  unfold resolution_words. intros H H' Hh.
  repeat (destruct H as [[= <- <-]|H];
          [repeat (destruct H' as [[= <- <-]|H'];
                   [first [reflexivity | vm_compute in Hh; discriminate Hh]|]);
           destruct H'|]);
    destruct H.
Qed.

(** What a successful search for a resolution gives. *)
Lemma get_resolution_of_match (source_path : str) (m : match_obj) :
  search patterns.resolution (folder_file source_path) = Some m ->
  exists w r, In (w, r) resolution_words
              /\ token_at (folder_file source_path) (m_start m) w = true
              /\ get_resolution source_path = Some r.
Proof.
  intros Hs. unfold get_resolution. rewrite Hs.
  set (s := folder_file source_path) in *.
  apply search_in in Hs as [_ Hin].
  apply mt_resolution_iff in Hin as [w [r [Hw [Ht Hst]]]].
  exists w, r. split; [exact Hw|]. split; [exact Ht|].
  unfold group. rewrite Hst. cbn [caps lookup_cap String.eqb Ascii.eqb Bool.eqb].
  change (Some (normal_resolution (substr s (m_start m) (m_start m + length w)))
          = Some r).
  f_equal. rewrite <- (normal_resolution_word w r Hw).
  apply normal_resolution_lower. apply lit_at_lower.
  unfold token_at in Ht. rewrite !andb_true_iff in Ht. tauto.
Qed.

Lemma resolution_search_none (s : str) :
  search patterns.resolution s = None <-> forall k, resolution_at s k = false.
Proof.
  rewrite search_seq, first_match_seq_none. split.
  - intros H k. destruct (resolution_at s k) eqn:E; [|reflexivity]. exfalso.
    unfold resolution_at in E. apply existsb_exists in E as [[w r] [Hw Ht]].
    cbn [fst] in Ht.
    destruct (resolution_word_head w r Hw) as [h [c [w' [_ ->]]]].
    pose proof (token_at_len s k c w' Ht) as Hlen.
    specialize (H k ltac:(simpl in Hlen; lia)). unfold match_at in H.
    assert (Hin : In (MState (k + length (c :: w'))
                        [("resolution"%string, (k, k + length (c :: w')))])
                     (mt true s (p_re patterns.resolution) (init k)))
      by (apply mt_resolution_iff; eauto).
    change (p_ic patterns.resolution) with true in H.
    destruct (mt true s (p_re patterns.resolution) (init k));
      [destruct Hin | discriminate].
  - intros H i _. unfold match_at.
    change (p_ic patterns.resolution) with true.
    destruct (mt true s (p_re patterns.resolution) (init i)) as [|st l] eqn:E;
      [reflexivity|].
    assert (Hin : In st (mt true s (p_re patterns.resolution) (init i)))
      by (rewrite E; now left).
    apply mt_resolution_iff in Hin as [w [r [Hw [Ht _]]]].
    assert (resolution_at s i = true).
    { unfold resolution_at. apply existsb_exists. now exists (w, r). }
    rewrite H in H0. discriminate.
Qed.

(** X4: the resolution is none, 720p, 1080p or 2160p, whatever the path. *)
Theorem get_resolution_values (source_path : str) :
  get_resolution source_path = None
  \/ get_resolution source_path = Some (L "720p")
  \/ get_resolution source_path = Some (L "1080p")
  \/ get_resolution source_path = Some (L "2160p").
Proof.
  destruct (search patterns.resolution (folder_file source_path)) as [m|] eqn:E.
  - destruct (get_resolution_of_match source_path m E) as [w [r [Hw [_ ->]]]].
    unfold resolution_words in Hw. right.
    repeat (destruct Hw as [[= <- <-]|Hw]; [tauto|]). destruct Hw.
  - left. unfold get_resolution. now rewrite E.
Qed.

(** X5: the resolution is the one that the left-most resolution token of the
    folder and file name stands for, 4K standing for 2160p and a number
    without its p for the number with it; there is no resolution exactly when
    there is no such token. *)
Theorem get_resolution_leftmost (source_path : str) :
  (forall k w r,
      In (w, r) resolution_words ->
      token_at (path_text source_path) k w = true ->
      (forall k', k' < k -> resolution_at (path_text source_path) k' = false) ->
      get_resolution source_path = Some r)
  /\ (get_resolution source_path = None <->
      forall k, resolution_at (path_text source_path) k = false).
Proof.
  rewrite <- !folder_file_text.
  set (s := folder_file source_path). split.
  - intros k w r Hw Ht Hfirst.
    destruct (search patterns.resolution s) as [m|] eqn:E.
    + destruct (get_resolution_of_match source_path m E) as [w0 [r0 [Hw0 [Ht0 ->]]]].
      fold s in Ht0. f_equal.
      assert (Hk : m_start m = k).
      { destruct (Nat.lt_trichotomy (m_start m) k) as [Hlt|[Heq|Hgt]];
          [|exact Heq|].
        - specialize (Hfirst _ Hlt). unfold resolution_at in Hfirst.
          assert (existsb (fun wr => token_at s (m_start m) (fst wr))
                    resolution_words = true)
            by (apply existsb_exists; now exists (w0, r0)).
          congruence.
        - exfalso. rewrite search_seq in E.
          apply first_match_seq_some in E as [i [_ [Hm Hno]]].
          apply match_at_start in Hm as Hi. subst i.
          specialize (Hno k ltac:(lia)). unfold match_at in Hno.
          assert (Hin : In (MState (k + length w)
                              [("resolution"%string, (k, k + length w))])
                           (mt true s (p_re patterns.resolution) (init k)))
            by (apply mt_resolution_iff; eauto).
          change (p_ic patterns.resolution) with true in Hno.
          destruct (mt true s (p_re patterns.resolution) (init k));
            [destruct Hin | discriminate]. }
      rewrite Hk in Ht0.
      destruct (resolution_word_head w r Hw) as [h [c [w' [Hh _]]]].
      destruct (resolution_word_head w0 r0 Hw0) as [h0 [c0 [w0' [Hh0 _]]]].
      apply (resolution_heads w0 r0 w r Hw0 Hw). rewrite Hh, Hh0. f_equal.
      unfold token_at in Ht, Ht0. rewrite !andb_true_iff in Ht, Ht0.
      apply (lit_at_head2 s k w0 w h0 h); tauto.
    + exfalso. apply resolution_search_none with (k := k) in E.
      unfold resolution_at in E.
      assert (existsb (fun wr => token_at s k (fst wr)) resolution_words = true)
        by (apply existsb_exists; now exists (w, r)).
      congruence.
  - rewrite <- resolution_search_none. split.
    + intros H. destruct (search patterns.resolution s) as [m|] eqn:E;
        [|reflexivity].
      destruct (get_resolution_of_match source_path m E) as [w [r [_ [_ Hr]]]].
      congruence.
    + intros E. unfold get_resolution. fold s. now rewrite E.
Qed.

Lemma get_resolution_leftmost_witness :
  get_resolution (L "films/Movie.4k.1080p.mkv") = Some (L "2160p").
Proof.
  apply (proj1 (get_resolution_leftmost (L "films/Movie.4k.1080p.mkv"))
           12 (L "4K") (L "2160p")).
  - simpl. tauto.
  - reflexivity.
  - intros k' Hk'. do 12 (destruct k' as [|k']; [reflexivity|]). lia.
Defined.

(** ** Folder and file names *)

Lemma dirname_join_path (a file : str) (c : ascii) :
  is_sep c = false -> no_sep file ->
  dirname ((a ++ [c]) ++ sep :: file) = a ++ [c].
Proof.
  intros Hc Hf. unfold dirname.
  rewrite rev_app_distr. simpl. rewrite <- app_assoc. simpl.
  destruct (take_while_all (fun x => negb (is_sep x)) (rev file)
              (rev (a ++ [c])) sep) as [_ ->].
  - apply List.Forall_rev. now apply no_sep_negb.
  - reflexivity.
  - simpl. rewrite rev_involutive.
    assert (E : forallb is_sep ((a ++ [c]) ++ [sep]) = false).
    { rewrite !forallb_app. simpl. rewrite Hc. simpl. now rewrite andb_false_r. }
    rewrite E. rewrite rev_app_distr. simpl. rewrite rev_app_distr. simpl.
    rewrite Hc. simpl. now rewrite rev_involutive.
Qed.

(** X6: only the last two components of a path count: for a path that ends
    in a folder name and a file name, the parser reads that folder name and
    that file name, whatever precedes them. *)
Theorem folder_file_last_two (dir folder file : str) :
  folder <> [] -> no_sep folder -> no_sep file ->
  folder_file (dir ++ sep :: folder ++ sep :: file) = folder ++ sep :: file.
Proof.
  intros Hne Hd Hf. unfold folder_file, folder_of, file_of.
  destruct (exists_last Hne) as [a [c ->]].
  assert (Hc : is_sep c = false).
  { unfold no_sep in Hd. rewrite List.Forall_forall in Hd. apply Hd.
    apply in_app_iff. right. now left. }
  replace (dir ++ sep :: (a ++ [c]) ++ sep :: file)
    with (((dir ++ sep :: a) ++ [c]) ++ sep :: file)
    by (now rewrite <- !app_assoc).
  rewrite dirname_join_path by assumption.
  rewrite basename_join by assumption.
  replace ((dir ++ sep :: a) ++ [c]) with (dir ++ sep :: (a ++ [c]))
    by (now rewrite <- !app_assoc).
  now rewrite basename_join.
Qed.

Lemma folder_file_last_two_witness :
  folder_file (L "/data/films" ++ sep :: L "Movie (2010)" ++ sep :: L "movie.mkv")
  = L "Movie (2010)" ++ sep :: L "movie.mkv".
Proof.
  apply folder_file_last_two.
  - discriminate.
  - repeat constructor.
  - repeat constructor.
Defined.

Lemma nth_error_sep (a b : str) (j : nat) :
  no_sep a -> no_sep b ->
  (sep_at (a ++ sep :: b) j = true <-> j = length a).
Proof.
  intros Ha Hb. unfold sep_at. split.
  - intros H. destruct (Nat.lt_trichotomy j (length a)) as [Hlt|[Heq|Hgt]];
      [|exact Heq|]; exfalso.
    + rewrite nth_error_app1 in H by exact Hlt.
      destruct (nth_error a j) as [x|] eqn:E; [|discriminate].
      apply nth_error_In in E. unfold no_sep in Ha.
      rewrite List.Forall_forall in Ha. specialize (Ha x E).
      unfold is_sep, sep in Ha. rewrite Ha in H. discriminate.
    + rewrite nth_error_app2 in H by lia.
      destruct (j - length a) as [|n] eqn:D; [lia|]. simpl in H.
      destruct (nth_error b n) as [x|] eqn:E; [|discriminate].
      apply nth_error_In in E. unfold no_sep in Hb.
      rewrite List.Forall_forall in Hb. specialize (Hb x E).
      unfold is_sep, sep in Hb. rewrite Hb in H. discriminate.
  - intros ->. rewrite nth_error_app2 by lia. now rewrite Nat.sub_diag.
Qed.

(** X7: the text in which the parser searches holds exactly one separator,
    the one that joins the folder name and the file name. *)
Theorem folder_file_one_separator (source_path : str) (j : nat) :
  sep_at (folder_file source_path) j = true <->
  j = length (folder_of source_path).
Proof.
  unfold folder_file. apply nth_error_sep.
  - unfold folder_of. apply basename_no_sep.
  - unfold file_of. apply basename_no_sep.
Qed.

(** ** The edition *)

(** X8: the edition that [get_edition] reports is the corrected text that
    [_edition_map] finds for the same path, an empty text counting as no
    edition: joining the folder and file name and splitting them again
    changes nothing. *)
Theorem get_edition_agrees (cfg : config) (source_path : str) :
  get_edition cfg source_path
  = match _edition_map cfg source_path with
    | Some (_, []) => None
    | Some (_, edition) => Some edition
    | None => None
    end.
Proof.
  unfold get_edition, _edition_map. now rewrite folder_file_idem.
Qed.

Lemma edition_search_some (entries : list (regex * template)) (s : str)
    (rx : pattern) (e : str) :
  edition_search entries s = Some (rx, e) ->
  exists key value result,
    In (key, value) entries
    /\ rx = Pattern (delimit key) true
    /\ search rx s = Some result
    /\ e = sub rx value (group0 s result).
Proof.
  induction entries as [|[key value] rest IH]; simpl; [discriminate|].
  destruct (search (Pattern (delimit key) true) s) as [result|] eqn:E.
  - intros [= <- <-]. exists key, value, result. auto.
  - intros H. destruct (IH H) as [k [v [r [Hin Hrest]]]].
    exists k, v, r. auto.
Qed.

(** X9: whatever [_edition_map] returns comes from an entry of the table:
    the expression is the key of the entry between two word boundaries, it
    is found in the folder and file name, and the corrected text is the
    value of the entry substituted into what was found; when the key is not
    an alternation, what was found stands between two word boundaries. *)
Theorem edition_map_sound (cfg : config) (source_path : str) (rx : pattern)
    (edition : str) :
  _edition_map cfg source_path = Some (rx, edition) ->
  exists key value result,
    In (key, value) (edition_map cfg)
    /\ rx = Pattern (delimit key) true
    /\ search rx (path_text source_path) = Some result
    /\ edition = sub rx value (group0 (path_text source_path) result)
    /\ (plain_key key ->
        boundary (path_text source_path) (m_start result) = true
        /\ boundary (path_text source_path) (m_end result) = true).
Proof.
  rewrite <- !folder_file_text.
  unfold _edition_map. intros H.
  apply edition_search_some in H as [key [value [result [Hin [-> [Hs ->]]]]]].
  exists key, value, result. repeat split; try assumption.
  - apply (delimited_match key _ result); [|exact Hs].
    destruct key; try reflexivity. contradiction.
  - apply (delimited_match key _ result); [|exact Hs].
    destruct key; try reflexivity. contradiction.
Qed.

Lemma edition_map_sound_witness :
  exists key value result,
    In (key, value) [(Lit (L "extended"), [TLit (L "Extended Edition")])]
    /\ Pattern (delimit (Lit (L "extended"))) true = Pattern (delimit key) true
    /\ search (Pattern (delimit (Lit (L "extended"))) true)
         (path_text (L "films/Movie.Extended.2010.mkv")) = Some result
    /\ L "Extended Edition"
       = sub (Pattern (delimit (Lit (L "extended"))) true) value
           (group0 (path_text (L "films/Movie.Extended.2010.mkv")) result)
    /\ (plain_key key ->
        boundary (path_text (L "films/Movie.Extended.2010.mkv"))
          (m_start result) = true
        /\ boundary (path_text (L "films/Movie.Extended.2010.mkv"))
             (m_end result) = true).
Proof.
  apply (edition_map_sound
           (Config [] [] [(Lit (L "extended"), [TLit (L "Extended Edition")])])
           (L "films/Movie.Extended.2010.mkv")).
  reflexivity.
Defined.

(** ** Substitution *)

Section Sub.

Variables (p : pattern) (t : template) (s : str).

Lemma in_skipn_nth (from : nat) (c : ascii) :
  In c (skipn from s) -> exists j, from <= j /\ nth_error s j = Some c.
Proof.
  intros H. apply In_nth_error in H as [n Hn].
  exists (from + n). split; [lia|]. now rewrite <- nth_error_skipn.
Qed.

Lemma in_substr_nth (a b : nat) (c : ascii) :
  In c (substr s a b) -> exists j, a <= j < b /\ nth_error s j = Some c.
Proof.
  unfold substr. intros H. apply In_nth_error in H as [n Hn].
  assert (Hlt : n < b - a).
  { assert (n < length (firstn (b - a) (skipn a s)))
      by (apply nth_error_Some; congruence).
    rewrite length_firstn in H. lia. }
  rewrite nth_error_firstn in Hn.
  destruct (Nat.ltb_spec n (b - a)) as [_|Hge]; [|lia].
  rewrite nth_error_skipn in Hn. exists (a + n). split; [lia | exact Hn].
Qed.

(** No match of [p] is empty. *)
Hypothesis consumes :
  forall i st, In st (mt (p_ic p) s (p_re p) (init i)) -> i < pos st.

(** A character of the result of a substitution comes from the replacement
    or is a character of the text at which no match starts. *)
Lemma sub_from_chars (fuel from : nat) (c : ascii) :
  length s < fuel + from ->
  In c (sub_from (finditer_from p s fuel false from) t s from) ->
  (exists m, In c (expand t s m))
  \/ (exists j, nth_error s j = Some c /\ match_at p s false j = None).
Proof using consumes.
  revert from. induction fuel as [|fuel IH]; intros from Hfuel Hin.
  - cbn [finditer_from sub_from] in Hin.
    rewrite skipn_all2 in Hin by lia. destruct Hin.
  - cbn [finditer_from] in Hin.
    destruct (search_from p s false from) as [m|] eqn:E.
    + rewrite search_from_seq in E.
      apply first_match_seq_some in E as [i [Hi [Hm Hno]]].
      apply match_at_in in Hm as Hm'. destruct Hm' as [Hstart Hstate].
      apply consumes in Hstate. fold (m_end m) in Hstate.
      replace (m_end m =? m_start m) with false in Hin
        by (symmetry; apply Nat.eqb_neq; lia).
      cbn [sub_from] in Hin. rewrite !in_app_iff in Hin.
      destruct Hin as [Hin|[Hin|Hin]].
      * right. apply in_substr_nth in Hin as [j [Hj Hc]].
        exists j. split; [exact Hc|]. apply Hno. lia.
      * left. now exists m.
      * apply (IH (m_end m)); [lia | exact Hin].
    + cbn [sub_from] in Hin. right.
      apply in_skipn_nth in Hin as [j [Hj Hc]].
      exists j. split; [exact Hc|].
      rewrite search_from_seq in E.
      apply (proj1 (first_match_seq_none p s from (S (length s - from))) E).
      assert (j < length s) by (apply nth_error_Some; congruence). lia.
Qed.

Lemma sub_chars (c : ascii) :
  In c (sub p t s) ->
  (exists m, In c (expand t s m))
  \/ (exists j, nth_error s j = Some c /\ match_at p s false j = None).
Proof using consumes.
  unfold sub, finditer. apply sub_from_chars. lia.
Qed.

End Sub.

(** ** The unwanted characters (get_title) *)

Lemma strip_from_title_consumes (s : str) (i : nat) (st : mstate) :
  In st (mt false s (p_re patterns.strip_from_title) (init i)) -> i < pos st.
Proof.
  unfold patterns.strip_from_title. cbn [p_re]. intros H.
  apply in_mt_Grp in H as [z [Hz ->]]. cbn [pos close_group].
  rewrite mt_Alt in Hz. apply in_app_iff in Hz as [Hz|Hz].
  - rewrite mt_Chr in Hz.
    destruct (char_ok false s _ (pos (init i))); [|destruct Hz].
    destruct Hz as [<-|[]]. simpl. lia.
  - apply in_mt_Seq in Hz as [y [Hy Hz]]. unfold Plus in Hy.
    rewrite mt_Rep_Chr in Hy. apply in_map_iff in Hy as [n [<- Hn]].
    apply in_loop_order in Hn. unfold mt in Hz.
    destruct (at_end s (pos (shift (init i) n))); [|destruct Hz].
    destruct Hz as [<-|[]]. simpl. lia.
Qed.

Lemma unwanted_matches (s : str) (j : nat) (c : ascii) :
  nth_error s j = Some c -> unwanted c = true ->
  match_at patterns.strip_from_title s false j <> None.
Proof.
  intros Hc Hu. unfold match_at. cbn [p_ic p_re patterns.strip_from_title].
  rewrite mt_Grp, mt_Alt, mt_Chr. unfold char_ok. cbn [pos init]. rewrite Hc.
  assert (E : in_cset false c
                (OneOf [IChr "."; IChr "_"; IChr (ascii_of_nat 183); IChr "[";
                        IChr "]"; IChr "{"; IChr "}"; IChr "("; IChr ")"])
              = true).
  { unfold unwanted in Hu. cbn in Hu |- *. exact Hu. }
  rewrite E. cbn. discriminate.
Qed.

(** X10: after the unwanted characters have been replaced, the title holds
    no dot, underscore, middle dot, bracket, brace or parenthesis. *)
Theorem strip_unwanted_clean (title : str) (c : ascii) :
  In c (strip_unwanted title) -> unwanted c = false.
Proof.
  unfold strip_unwanted. intros H.
  apply sub_chars in H; [|apply strip_from_title_consumes].
  destruct H as [[m Hm] | [j [Hc Hno]]].
  - cbn in Hm. destruct Hm as [<-|[]]. reflexivity.
  - destruct (unwanted c) eqn:E; [|reflexivity].
    exfalso. exact (unwanted_matches title j c Hc E Hno).
Qed.

Lemma strip_unwanted_clean_witness :
  unwanted "B" = false.
Proof.
  apply (strip_unwanted_clean (L "A.B_(C)") "B").
  vm_compute. tauto.
Defined.

(** ** The text of the year (get_title) *)

Lemma split_head_prefix (w s : str) :
  exists rest, s = split_head w s ++ rest.
Proof.
  unfold split_head. destruct (find w s) as [i|] eqn:F.
  - destruct (find_some w s i F) as [b [Hb _]]. now exists (w ++ b).
  - exists []. now rewrite app_nil_r.
Qed.

Lemma split_head_free (w s : str) :
  w <> [] -> forall a b, split_head w s <> a ++ w ++ b.
Proof.
  intros Hw a b. unfold split_head. destruct (find w s) as [i|] eqn:F.
  - destruct (find_some w s i F) as [c [Hc Hmin]]. intros E.
    assert (Hi : i <= length s).
    { destruct (Nat.le_gt_cases i (length s)) as [|Hgt]; [assumption|].
      rewrite firstn_all2 in Hc by lia.
      apply (f_equal (@length ascii)) in Hc. rewrite !length_app in Hc.
      destruct w; [contradiction | simpl in Hc; lia]. }
    assert (Hs : s = a ++ w ++ (b ++ w ++ c)).
    { rewrite Hc at 1. rewrite E. now rewrite <- !app_assoc. }
    specialize (Hmin a _ Hs).
    apply (f_equal (@length ascii)) in E.
    rewrite length_firstn, !length_app in E.
    destruct w; [contradiction | simpl in E; lia].
  - exact (find_none w s F a b).
Qed.

Lemma nat_digits_length (fuel n : nat) (acc : str) :
  length acc <= length (nat_digits fuel n acc).
Proof.
  revert n acc. induction fuel as [|fuel IH]; intros n acc; simpl; [lia|].
  destruct (n <? 10); simpl; [lia|].
  specialize (IH (n / 10) (ascii_of_nat (48 + n mod 10) :: acc)). simpl in IH. lia.
Qed.

Lemma py_str_not_empty (x : option Z) : py_str x <> [].
Proof.
  destruct x as [z|]; [|discriminate]. unfold py_str, str_of_Z.
  intros E. apply (f_equal (@length ascii)) in E. rewrite length_app in E.
  cbn [nat_digits] in E.
  destruct (Z.to_nat (Z.abs z) <? 10).
  - simpl in E. lia.
  - pose proof (nat_digits_length (Z.to_nat (Z.abs z)) (Z.to_nat (Z.abs z) / 10)
                  [ascii_of_nat (48 + Z.to_nat (Z.abs z) mod 10)]) as H.
    simpl in *. lia.
Qed.

(** X11: cutting the title at the year only shortens it: what is kept is the
    start of the title, and the text of the year (or the text "None") occurs
    nowhere in it. *)
Theorem split_on_year_prefix (source_path title : str) :
  (exists rest, title = split_on_year source_path title ++ rest)
  /\ forall a b,
       split_on_year source_path title
       <> a ++ py_str (get_year source_path) ++ b.
Proof.
  unfold split_on_year. split.
  - apply split_head_prefix.
  - apply split_head_free. apply py_str_not_empty.
Qed.

Lemma year_texts_ok_true : year_texts_ok = true.
Proof. vm_compute. reflexivity. Qed.

Lemma year_text_digits (y : Z) :
  (1921 <= y <= 2159)%Z ->
  exists a b c d,
    str_of_Z y = [a; b; c; d]
    /\ forallb is_digit [a; b; c; d] = true
    /\ digits_value 0 [a; b; c; d] = y.
Proof.
  intros Hy. pose proof year_texts_ok_true as H. unfold year_texts_ok in H.
  rewrite forallb_forall in H. specialize (H (Z.to_nat y)).
  rewrite Z2Nat.id in H by lia.
  assert (Hin : In (Z.to_nat y) (seq 1921 239)) by (apply in_seq; lia).
  apply H in Hin. rewrite !andb_true_iff in Hin. destruct Hin as [[Hl Hd] Hv].
  apply Nat.eqb_eq in Hl. apply Z.eqb_eq in Hv.
  destruct (str_of_Z y) as [|a [|b [|c [|d [|e l]]]]]; try discriminate Hl.
  exists a, b, c, d. auto.
Qed.

Lemma digits4_inj (a b c d a' b' c' d' : ascii) :
  forallb is_digit [a; b; c; d] = true ->
  forallb is_digit [a'; b'; c'; d'] = true ->
  digits_value 0 [a; b; c; d] = digits_value 0 [a'; b'; c'; d'] ->
  [a; b; c; d] = [a'; b'; c'; d'].
Proof.
  unfold is_digit, between. cbn [forallb digits_value]. intros H H' E.
  bool_to_prop.
  assert (code a = code a' /\ code b = code b' /\ code c = code c'
          /\ code d = code d') as [Ha [Hb [Hc Hd]]] by lia.
  apply code_inj in Ha, Hb, Hc, Hd. now subst.
Qed.

(** The text of a year token, read as a number and written again, is the
    same text. *)
Lemma year_value_text (s : str) (k : nat) (y : Z) :
  year_value s k = Some y -> str_of_Z y = substr s k (k + 4).
Proof.
  intros H. pose proof (year_value_range s k y H) as Hy.
  pose proof (year_value_int s k y H) as Hint.
  pose proof (year_value_digits s k y H) as Hd.
  destruct (year_text_digits y Hy) as [a [b [c [d [-> [Hdig Hval]]]]]].
  rewrite substr4 in *.
  unfold digits4_at, digit_at in Hd.
  rewrite (skipn_nth s k), (skipn_nth s (S k)), (skipn_nth s (S (S k))),
    (skipn_nth s (S (S (S k)))) in *.
  replace (k + 1) with (S k) in Hd by lia.
  replace (k + 2) with (S (S k)) in Hd by lia.
  replace (k + 3) with (S (S (S k))) in Hd by lia.
  rewrite !andb_true_iff in Hd. destruct Hd as [[[D0 D1] D2] D3].
  destruct (nth_error s k) as [x0|]; [|discriminate].
  destruct (nth_error s (S k)) as [x1|]; [|discriminate].
  destruct (nth_error s (S (S k))) as [x2|]; [|discriminate].
  destruct (nth_error s (S (S (S k)))) as [x3|]; [|discriminate].
  cbn [firstn] in *. rewrite firstn_O in *.
  unfold py_int in Hint.
  destruct (forallb is_digit [x0; x1; x2; x3]) eqn:Hx; [|discriminate].
  injection Hint as Hint.
  apply digits4_inj; [exact Hdig | exact Hx | rewrite Hval; symmetry; exact Hint].
Qed.

(** The year, computed from the right-most year token. *)
Lemma get_year_token (source_path : str) :
  get_year source_path
  = match rightmost (folder_file source_path)
            (length (folder_file source_path)) with
    | Some k => year_value (folder_file source_path) k
    | None => None
    end.
Proof.
  unfold get_year. set (s := folder_file source_path).
  pose proof (rightmost_spec s (length s)) as R.
  destruct (rightmost s (length s)) as [kmax|].
  - destruct R as [Hlt [Hy Hmax]].
    assert (Hall : forall k, year_at s k = true -> k <= kmax).
    { intros k Hk. apply Hmax; [now apply year_at_lt | exact Hk]. }
    assert (H0 : 0 < kmax) by (now apply year_at_reach in Hy as [H0 _]).
    destruct (finditer_year_last s kmax Hy Hall (2 * S (length s)) 0 H0
                ltac:(lia)) as [i Hi].
    unfold finditer. rewrite Hi. unfold group, year_match.
    cbn [m_state caps lookup_cap]. rewrite String.eqb_refl.
    assert (T : year_token s kmax = true)
      by (now apply year_at_reach in Hy as [_ [_ T]]).
    unfold year_token in T. rewrite !andb_true_iff in T. destruct T as [[_ V] _].
    destruct (year_value s kmax) as [y|] eqn:E; [|discriminate].
    exact (year_value_int s kmax y E).
  - assert (E : finditer patterns.year s = []).
    { unfold finditer. apply finditer_year_none. intros k _.
      destruct (year_at s k) eqn:Hk; [|reflexivity].
      rewrite R in Hk; [discriminate | now apply year_at_lt]. }
    now rewrite E.
Qed.

(** X12: when a year is found, the title is cut at the first occurrence of
    the very four digits of the right-most year token: the year read as a
    number and written again is the text that was found. *)
Theorem split_on_year_text (source_path : str) (y : Z) :
  get_year source_path = Some y ->
  exists k,
    year_at (path_text source_path) k = true
    /\ (forall k', year_at (path_text source_path) k' = true -> k' <= k)
    /\ py_str (get_year source_path)
       = substr (path_text source_path) k (k + 4)
    /\ forall title,
         split_on_year source_path title
         = split_head (substr (path_text source_path) k (k + 4)) title.
Proof.
  rewrite <- !folder_file_text.
  intros Hy. pose proof (get_year_token source_path) as G. rewrite Hy in G.
  set (s := folder_file source_path) in *.
  pose proof (rightmost_spec s (length s)) as R.
  destruct (rightmost s (length s)) as [k|]; [|discriminate].
  destruct R as [_ [Hk Hmax]]. symmetry in G.
  assert (Htext : py_str (Some y) = substr s k (k + 4))
    by (exact (year_value_text s k y G)).
  exists k. split; [exact Hk|]. split.
  - intros k' Hk'. apply Hmax; [now apply year_at_lt | exact Hk'].
  - split; [now rewrite Hy|]. intros title. unfold split_on_year.
    fold s. now rewrite Hy, Htext.
Qed.

Lemma split_on_year_text_witness :
  exists k,
    year_at (path_text (L "films/2001 A Space Odyssey 1968.mkv")) k = true
    /\ (forall k', year_at (path_text (L "films/2001 A Space Odyssey 1968.mkv"))
                     k' = true -> k' <= k)
    /\ py_str (get_year (L "films/2001 A Space Odyssey 1968.mkv"))
       = substr (path_text (L "films/2001 A Space Odyssey 1968.mkv")) k (k + 4)
    /\ forall title,
         split_on_year (L "films/2001 A Space Odyssey 1968.mkv") title
         = split_head
             (substr (path_text (L "films/2001 A Space Odyssey 1968.mkv"))
                k (k + 4)) title.
Proof.
  apply (split_on_year_text _ 1968%Z). vm_compute. reflexivity.
Defined.

(** ** Prefix stripping (get_title) *)

Lemma str_lower_app (a b : str) : str_lower (a ++ b) = str_lower a ++ str_lower b.
Proof. unfold str_lower. apply map_app. Qed.

Lemma strip_prefix_removes (title prefix : str) :
  startswith (str_lower title) (str_lower prefix) = true ->
  title = firstn (length prefix) title ++ strip_prefix title prefix
  /\ str_lower (firstn (length prefix) title) = str_lower prefix.
Proof.
  intros H. unfold strip_prefix. rewrite H. split.
  - symmetry. apply firstn_skipn.
  - apply startswith_app in H as [c Hc].
    unfold str_lower in *. rewrite <- firstn_map, Hc.
    rewrite <- (length_map lower prefix).
    rewrite firstn_app, Nat.sub_diag, firstn_all. simpl. apply app_nil_r.
Qed.

(** X13: prefix stripping only takes characters from the front of the
    title, and what it takes is, up to case, some of the configured prefixes
    one after the other in the configured order. *)
Theorem strip_tag_prefixes_removes (prefixes : list str) (title : str) :
  exists used removed,
    sublist used prefixes
    /\ title = removed ++ strip_tag_prefixes prefixes title
    /\ str_lower removed = str_lower (concat used).
Proof.
  revert title. induction prefixes as [|p ps IH]; intros title.
  - exists [], []. split; [constructor|]. split; reflexivity.
  - cbn [strip_tag_prefixes fold_left].
    fold (strip_tag_prefixes ps (strip_prefix title p)).
    destruct (IH (strip_prefix title p)) as [used [removed [Hsub [Ht Hl]]]].
    destruct (startswith (str_lower title) (str_lower p)) eqn:E.
    + destruct (strip_prefix_removes title p E) as [Hsplit Hlow].
      exists (p :: used), (firstn (length p) title ++ removed).
      split; [now constructor|]. split.
      * rewrite <- app_assoc, <- Ht. exact Hsplit.
      * cbn [concat]. now rewrite !str_lower_app, Hlow, Hl.
    + exists used, removed. split; [now constructor|]. split; [|exact Hl].
      unfold strip_prefix in Ht. rewrite E in Ht.
      unfold strip_prefix at 1. now rewrite E.
Qed.

(** ** Restoring the periods (get_title) *)

Lemma substr_skipn (s : str) (a b : nat) :
  a <= b -> substr s a b ++ skipn b s = skipn a s.
Proof.
  intros H. unfold substr. replace b with ((b - a) + a) at 2 by lia.
  rewrite <- skipn_skipn. apply firstn_skipn.
Qed.

Lemma search_from_in (p : pattern) (s : str) (b : bool) (from : nat)
    (m : match_obj) :
  search_from p s b from = Some m ->
  from <= m_start m
  /\ In (m_state m) (mt (p_ic p) s (p_re p) (init (m_start m))).
Proof.
  unfold search_from. destruct (match_at p s b from) as [m'|] eqn:E.
  - intros [= <-]. unfold match_at in E.
    destruct b.
    + destruct (List.filter _ _) as [|st l] eqn:F; [discriminate|].
      injection E as <-. cbn [m_start m_state]. split; [lia|].
      assert (Hin : In st (st :: l)) by now left.
      rewrite <- F in Hin. now apply filter_In in Hin.
    + destruct (mt _ _ _ _) as [|st l] eqn:F; [discriminate|].
      injection E as <-. cbn [m_start m_state]. split; [lia|].
      rewrite F. now left.
  - intros H. apply first_match_seq_some in H as [i [Hi [Hm _]]].
    apply match_at_in in Hm as [-> Hin]. split; [lia | exact Hin].
Qed.

Section SubCase.

Variables (p : pattern) (t : template) (w s : str).

(** The template stands for the text [w], whatever the match. *)
Hypothesis fixed : forall m, expand t s m = w.

(** Every match of [p] is, up to case, the text [w]. *)
Hypothesis same :
  forall i st, In st (mt (p_ic p) s (p_re p) (init i)) ->
               i <= pos st /\ str_lower (substr s i (pos st)) = str_lower w.

Lemma sub_from_lower (fuel : nat) (b : bool) (from : nat) :
  str_lower (sub_from (finditer_from p s fuel b from) t s from)
  = str_lower (skipn from s).
Proof using fixed same.
  revert b from. induction fuel as [|fuel IH]; intros b from; [reflexivity|].
  cbn [finditer_from].
  destruct (search_from p s b from) as [m|] eqn:E; [|reflexivity].
  apply search_from_in in E as [Hfrom Hin]. apply same in Hin as [Hle Hlow].
  fold (m_end m) in Hle, Hlow.
  cbn [sub_from]. rewrite fixed, !str_lower_app, IH.
  rewrite <- Hlow, <- !str_lower_app. f_equal.
  rewrite (substr_skipn s (m_start m) (m_end m) Hle).
  now apply substr_skipn.
Qed.

Lemma sub_lower : str_lower (sub p t s) = str_lower s.
Proof using fixed same. unfold sub, finditer. now rewrite sub_from_lower. Qed.

End SubCase.

(** A text without a backslash is its own template. *)
Lemma plain_template (w : str) :
  plain_text w -> parse_template w = Some (map (fun c => TLit [c]) w).
Proof.
  unfold parse_template, plain_text.
  induction w as [|c w IH]; intros Hw; [reflexivity|].
  cbn [read_template template_step]. unfold plain_step.
  destruct (ascii_eqb c "\") eqn:E.
  - exfalso. apply Hw. left. symmetry. now apply Ascii.eqb_eq.
  - rewrite IH by (intros H; apply Hw; now right). reflexivity.
Qed.

Lemma expand_plain (w s : str) (m : match_obj) :
  expand (map (fun c => TLit [c]) w) s m = w.
Proof.
  unfold expand. induction w as [|c w IH]; [reflexivity|].
  cbn [map flat_map app]. now rewrite IH.
Qed.

Lemma restore_period_lower (title k : str) :
  plain_text k ->
  exists title', restore_period title k = Some title'
                 /\ str_lower title' = str_lower title.
Proof.
  intros Hk. unfold restore_period, sub_text. rewrite (plain_template k Hk).
  eexists. split; [reflexivity|].
  apply sub_lower with (w := k); [intros m; apply expand_plain|].
  cbn [p_ic p_re]. intros i st H.
  apply in_mt_Seq in H as [z [Hz H]]. rewrite mt_Bnd in Hz.
  destruct (boundary title (pos (init i))); [|destruct Hz].
  destruct Hz as [<-|[]].
  apply in_mt_Seq in H as [y [Hy H]]. apply in_mt_Lit in Hy as [Hlit ->].
  rewrite mt_Bnd in H. destruct (boundary title _); [|destruct H].
  destruct H as [<-|[]]. cbn [pos init shift] in *.
  split; [lia | now apply lit_at_lower].
Qed.

Lemma restore_periods_lower (strs : list str) (title : str) :
  Forall plain_text strs ->
  exists title', restore_periods_from strs title = Some title'
                 /\ str_lower title' = str_lower title.
Proof.
  intros H. revert title. induction H as [|k ks Hk _ IH]; intros title.
  - exists title. split; reflexivity.
  - cbn [restore_periods_from].
    destruct (restore_period_lower title k Hk) as [t1 [-> E1]].
    destruct (IH t1) as [t2 [-> E2]]. exists t2. split; [reflexivity|].
    now rewrite E2.
Qed.

(** X14: when none of the configured strings holds a backslash, restoring
    the periods raises no error and changes nothing but the case of letters:
    up to case the title is what it was, so no period is put back where the
    title has none. *)
Theorem restore_periods_case_only (cfg : config) (title : str) :
  Forall plain_text (keep_period cfg) ->
  exists title', restore_periods cfg title = Some title'
                 /\ str_lower title' = str_lower title.
Proof. intros H. now apply restore_periods_lower. Qed.

Lemma restore_periods_case_only_witness :
  Forall plain_text (keep_period (Config [] [L "S.W.A.T."] []))
  /\ exists title',
       restore_periods (Config [] [L "S.W.A.T."] []) (L "s.w.a.t. 2017")
       = Some title'
       /\ str_lower title' = str_lower (L "s.w.a.t. 2017").
Proof.
  assert (H : Forall plain_text (keep_period (Config [] [L "S.W.A.T."] []))).
  { constructor; [|constructor]. unfold plain_text. cbn.
    intros F. repeat (destruct F as [F|F]; [discriminate F|]). exact F. }
  split; [exact H | exact (restore_periods_case_only _ _ H)].
Defined.

(** ** Deleting the matches (get_title) *)

Section Forward.

Variables (ic : bool) (s : str).

Lemma rep_forward (step : mstate -> list mstate) (greedy : bool) :
  (forall st y, In y (step st) -> pos st <= pos y) ->
  forall fuel lo hi st y,
    In y (rep step greedy fuel lo hi st) -> pos st <= pos y.
Proof.
  intros Hstep. induction fuel as [|fuel IH]; intros lo hi st y Hin.
  - cbn [rep] in Hin. destruct (lo =? 0); [|destruct Hin].
    destruct Hin as [<-|[]]. lia.
  - cbn [rep] in Hin.
    assert (Hstop : In y (if lo =? 0 then [st] else []) -> pos st <= pos y).
    { destruct (lo =? 0); [|intros []]. intros [<-|[]]. lia. }
    assert (Hmore :
      In y (if hi_open hi
            then flat_map
                   (fun st' =>
                      if (pos st <? pos st') || (1 <? lo)
                      then rep step greedy fuel (Nat.pred lo) (hi_pred hi) st'
                      else [st'])
                   (step st)
            else []) -> pos st <= pos y).
    { destruct (hi_open hi); [|intros []]. intros H.
      apply in_flat_map in H as [z [Hz H]]. apply Hstep in Hz.
      destruct ((pos st <? pos z) || (1 <? lo)).
      - apply IH in H. lia.
      - destruct H as [<-|[]]. exact Hz. }
    destruct greedy; apply in_app_iff in Hin as [H|H]; auto.
Qed.

(** The matcher never goes backwards. *)
Lemma mt_forward (r : regex) (st y : mstate) :
  In y (mt ic s r st) -> pos st <= pos y.
Proof.
  revert st y. induction r as [| cs | r1 IH1 r2 IH2 | r1 IH1 r2 IH2
                               | lo hi greedy r IH | | | | g r IH | r IH];
    intros st y Hin; cbn [mt] in Hin.
  - destruct Hin as [<-|[]]. lia.
  - destruct (nth_error s (pos st)) as [c|]; [|destruct Hin].
    destruct (in_cset ic c cs); [|destruct Hin].
    destruct Hin as [<-|[]]. cbn. lia.
  - apply in_flat_map in Hin as [z [Hz Hin]].
    apply IH1 in Hz. apply IH2 in Hin. lia.
  - apply in_app_iff in Hin as [H|H]; auto.
  - exact (rep_forward _ greedy IH _ _ _ _ _ Hin).
  - destruct (boundary s (pos st)); [|destruct Hin].
    destruct Hin as [<-|[]]. lia.
  - destruct (pos st =? 0); [|destruct Hin]. destruct Hin as [<-|[]]. lia.
  - destruct (at_end s (pos st)); [|destruct Hin].
    destruct Hin as [<-|[]]. lia.
  - apply in_map_iff in Hin as [z [<- Hz]]. apply IH in Hz. exact Hz.
  - auto.
Qed.

End Forward.

Lemma sub_from_deletes (p : pattern) (s : str) (fuel : nat) (b : bool)
    (from : nat) :
  sublist (sub_from (finditer_from p s fuel b from) [] s from) (skipn from s).
Proof.
  revert b from. induction fuel as [|fuel IH]; intros b from; [reflexivity|].
  cbn [finditer_from].
  destruct (search_from p s b from) as [m|] eqn:E; [|reflexivity].
  apply search_from_in in E as [Hfrom Hin]. apply mt_forward in Hin.
  cbn [pos init] in Hin. fold (m_end m) in Hin.
  cbn [sub_from expand flat_map app].
  rewrite <- (substr_skipn s from (m_start m) Hfrom).
  apply sublist_app; [reflexivity|].
  etransitivity; [apply IH|].
  rewrite <- (substr_skipn s (m_start m) (m_end m) Hin).
  apply sublist_inserts_l. reflexivity.
Qed.

(** Replacing the matches of a pattern by nothing only deletes characters. *)
Lemma sub_deletes (p : pattern) (s : str) : sublist (sub p [] s) s.
Proof. unfold sub, finditer. apply (sub_from_deletes p s _ false 0). Qed.

(** X15: taking the edition and then the media and resolution tags out of
    the title only deletes characters: what is left is the title with some
    of its characters missing, in their order, and nothing put in. *)
Theorem strip_tags_edition_deletes (cfg : config) (source_path title : str) :
  sublist (strip_tags (strip_edition cfg source_path title)) title.
Proof.
  unfold strip_tags, strip_edition.
  etransitivity; [apply sub_deletes|].
  etransitivity; [apply sub_deletes|].
  destruct (_edition_map cfg source_path) as [[rx t]|];
    [apply sub_deletes | reflexivity].
Qed.

(** ** The characters of a title (get_title) *)








(** ** The text of a part *)

Section Consumes.

Variables (ic : bool) (s : str) (P : ascii -> bool).

Lemma all_between_trans (a b c : nat) :
  all_between s P a b -> all_between s P b c -> all_between s P a c.
Proof.
  intros H1 H2 j Hj. destruct (Nat.lt_ge_cases j b); [apply H1 | apply H2]; lia.
Qed.

Lemma rep_consumes (step : mstate -> list mstate) (greedy : bool) :
  (forall st y, In y (step st) -> all_between s P (pos st) (pos y)) ->
  forall fuel lo hi st y,
    In y (rep step greedy fuel lo hi st) -> all_between s P (pos st) (pos y).
Proof.
  intros Hstep. induction fuel as [|fuel IH]; intros lo hi st y Hin.
  - cbn [rep] in Hin. destruct (lo =? 0); [|destruct Hin].
    destruct Hin as [<-|[]]. intros j Hj. lia.
  - cbn [rep] in Hin.
    assert (Hstop : In y (if lo =? 0 then [st] else []) ->
                    all_between s P (pos st) (pos y)).
    { destruct (lo =? 0); [|intros []]. intros [<-|[]] j Hj. lia. }
    assert (Hmore :
      In y (if hi_open hi
            then flat_map
                   (fun st' =>
                      if (pos st <? pos st') || (1 <? lo)
                      then rep step greedy fuel (Nat.pred lo) (hi_pred hi) st'
                      else [st'])
                   (step st)
            else []) -> all_between s P (pos st) (pos y)).
    { destruct (hi_open hi); [|intros []]. intros H.
      apply in_flat_map in H as [z [Hz H]]. apply Hstep in Hz.
      destruct ((pos st <? pos z) || (1 <? lo)).
      - apply IH in H. exact (all_between_trans _ _ _ Hz H).
      - destruct H as [<-|[]]. exact Hz. }
    destruct greedy; apply in_app_iff in Hin as [H|H]; auto.
Qed.

(** An expression whose character sets accept characters of [P] only
    matches characters of [P] only. *)
Lemma mt_consumes (r : regex) (st y : mstate) :
  only ic P r -> In y (mt ic s r st) -> all_between s P (pos st) (pos y).
Proof.
  revert st y. induction r as [| cs | r1 IH1 r2 IH2 | r1 IH1 r2 IH2
                               | lo hi greedy r IH | | | | g r IH | r IH];
    intros st y Hr Hin; cbn [mt] in Hin; cbn [only] in Hr.
  - destruct Hin as [<-|[]]. intros j Hj. lia.
  - destruct (nth_error s (pos st)) as [c|] eqn:E; [|destruct Hin].
    destruct (in_cset ic c cs) eqn:I; [|destruct Hin].
    destruct Hin as [<-|[]]. cbn [advance pos]. intros j Hj.
    assert (j = pos st) by lia. subst j. exists c. split; [exact E | now apply Hr].
  - destruct Hr as [Hr1 Hr2]. apply in_flat_map in Hin as [z [Hz Hin]].
    exact (all_between_trans _ _ _ (IH1 _ _ Hr1 Hz) (IH2 _ _ Hr2 Hin)).
  - destruct Hr as [Hr1 Hr2]. apply in_app_iff in Hin as [H|H]; auto.
  - apply (rep_consumes (mt ic s r) greedy (fun a b => IH a b Hr) _ _ _ _ _ Hin).
  - destruct (boundary s (pos st)); [|destruct Hin].
    destruct Hin as [<-|[]]. intros j Hj. lia.
  - destruct (pos st =? 0); [|destruct Hin]. destruct Hin as [<-|[]].
    intros j Hj. lia.
  - destruct (at_end s (pos st)); [|destruct Hin].
    destruct Hin as [<-|[]]. intros j Hj. lia.
  - apply in_map_iff in Hin as [z [<- Hz]]. cbn [close_group pos]. auto.
  - auto.
Qed.

End Consumes.

Lemma numeral_only : only true numeral_letter (Alt (Plus patterns.D) patterns.roman).
Proof.
  unfold patterns.roman, patterns.D, patterns.C, Plus, Upto, Opt, Lit.
  cbn [only L list_ascii_of_string Lit].
  repeat split; intros c H; unfold numeral_letter;
    cbn [in_cset existsb in_item] in H; rewrite orb_false_r in H;
    first [ now rewrite H
          | cbn [L list_ascii_of_string existsb];
            change (lower "M") with "m"%char in H;
            change (lower "D") with "d"%char in H;
            change (lower "C") with "c"%char in H;
            change (lower "L") with "l"%char in H;
            change (lower "X") with "x"%char in H;
            change (lower "V") with "v"%char in H;
            change (lower "I") with "i"%char in H;
            rewrite H; rewrite ?orb_true_r; reflexivity ].
Qed.

Lemma numeral_upper (c : ascii) :
  numeral_letter c = true -> numeral_capital (upper c) = true.
Proof. destruct c as [[] [] [] [] [] [] [] []]; vm_compute; auto. Qed.

(** X17: a part that is found is written with digits and the capital
    letters M, D, C, L, X, V and I only: these are all that the part pattern
    captures, in either case, and [str.upper] has no other letter to fold. *)
Theorem get_part_numeral (source_path : str) (text : str) :
  get_part source_path = Some text ->
  Forall (fun c => numeral_capital c = true) text.
Proof.
  unfold get_part. set (s := folder_file source_path).
  destruct (search patterns.part s) as [m|] eqn:E; [|discriminate].
  apply search_in in E as [_ Hin]. unfold patterns.part in Hin.
  cbn [p_ic p_re] in Hin.
  apply in_mt_Seq in Hin as [z1 [_ Hin]]. apply in_mt_Seq in Hin as [z2 [_ Hin]].
  apply in_mt_Seq in Hin as [z3 [_ Hin]]. unfold patterns.part_group in Hin.
  apply in_mt_Grp in Hin as [z [Hz Hm]]. rewrite mt_Par in Hz.
  apply in_mt_Grp in Hz as [w [Hw ->]].
  apply (mt_consumes true s numeral_letter _ _ _ numeral_only) in Hw.
  unfold group. rewrite Hm. cbn [close_group caps lookup_cap pos].
  rewrite String.eqb_refl. intros [= <-].
  apply List.Forall_forall. intros c Hc. unfold str_upper in Hc.
  apply in_map_iff in Hc as [x [<- Hx]].
  apply in_substr_nth in Hx as [j [Hj Hx]].
  destruct (Hw j Hj) as [x' [Hx' Hp]].
  rewrite Hx in Hx'. injection Hx' as <-. now apply numeral_upper.
Qed.

Lemma get_part_numeral_witness :
  get_part (L "films/Movie part xiv.mkv") = Some (L "XIV")
  /\ Forall (fun c => numeral_capital c = true) (L "XIV").
Proof.
  split; [reflexivity|].
  exact (get_part_numeral (L "films/Movie part xiv.mkv") (L "XIV") eq_refl).
Defined.
